(** * The AVR disassembler core of avrdude (src/disasm.c)

    A shallow embedding of the opcode registry, the bit-pattern matcher, the
    resolver and the two-pass driver of [disasm.c], followed by the theorems
    that relate the code to its natural-language specification.

    Conventions of the embedding:
    - a C string is the [string] of its characters before the terminating NUL;
      a loop [for(i = 0; i < strlen(s); i++)] that only reads [s[i]] is a
      structural recursion over that string;
    - [int] values are in [Z]; division and remainder are C's truncating
      [Z.quot] and [Z.rem]; the [int] cells of [cx->dis_regs] wrap at 32 bits;
    - a byte buffer is a [list Z] of [char] values; the pointer
      [Bitstream + Pos] is the suffix [drop Pos Bitstream]; a read outside
      the buffer is not a value: the reading function returns [None];
    - [cx->dis_regs] is a [list Z] of 256 cells, read and updated by index. *)

From Stdlib Require Import ZArith String Ascii Lia Bool.
From Stdlib Require Import Sorting.Permutation Sorting.Sorted.
From stdpp Require Import base tactics option list strings.

Local Open Scope string_scope.
Local Open Scope Z_scope.

(** ** C helpers *)

(** The newline character of the C string literals. *)
Definition nl : string := String (ascii_of_nat 10) EmptyString.

(** [l[i]] for an [int] index. *)
Definition at_index {A} (l : list A) (i : Z) : option A :=
  if i <? 0 then None else l !! Z.to_nat i.

(** [p[k]] for a [const char *p] into a buffer whose remaining bytes are
    [Bitstream]. *)
Definition read_byte (Bitstream : list Z) (k : Z) : option Z :=
  if k <? 0 then None else Bitstream !! Z.to_nat k.

(** Conversion to a 32-bit two's complement [int]. *)
Definition to_int (z : Z) : Z := (z + 2 ^ 31) mod 2 ^ 32 - 2 ^ 31.

(** The index [(int) Mask_Val] of a pattern character into [dis_regs]. *)
Definition reg_index (c : ascii) : nat := nat_of_ascii c.

Definition is_literal (c : ascii) : bool := (c =? "0")%char || (c =? "1")%char.

(** ** Pattern helpers *)

(** [Get_Bitmask_Length]: the loop body, [Length] being the running count. *)
Fixpoint Get_Bitmask_Length_loop (Bitmask : string) (Length : Z) : Z :=
  match Bitmask with
  | EmptyString => Length
  | String c rest =>
      if negb (c =? " ")%char
      then Get_Bitmask_Length_loop rest (Length + 1)
      else Get_Bitmask_Length_loop rest Length
  end.

Definition Get_Bitmask_Length (Bitmask : string) : Z :=
  Get_Bitmask_Length_loop Bitmask 0.

(** [Get_From_Bitmask]: the loop, [Cnt] counting the non-space characters
    passed so far. *)
Fixpoint Get_From_Bitmask_loop (Bitmask : string) (Cnt GetBit : Z) : ascii :=
  match Bitmask with
  | EmptyString => "?"%char
  | String c rest =>
      if negb (c =? " ")%char
      then if Cnt =? GetBit then c
           else Get_From_Bitmask_loop rest (Cnt + 1) GetBit
      else Get_From_Bitmask_loop rest Cnt GetBit
  end.

Definition Get_From_Bitmask (Bitmask : string) (Byte Bit : Z) : ascii :=
  let GetBit := Byte * 8 + Bit in
  Get_From_Bitmask_loop Bitmask 0 GetBit.

(** [Get_Specifity]: the loop, [Specifity] being the running count. *)
Fixpoint Get_Specifity_loop (Opcode : string) (Specifity : Z) : Z :=
  match Opcode with
  | EmptyString => Specifity
  | String c rest =>
      if (c =? "0")%char || (c =? "1")%char
      then Get_Specifity_loop rest (Specifity + 1)
      else Get_Specifity_loop rest Specifity
  end.

Definition Get_Specifity (Opcode : string) : Z := Get_Specifity_loop Opcode 0.

(** ** The field scratch [cx->dis_regs] *)

(** [Clear_Registers]: [for(i = 0; i < 256; i++) cx->dis_regs[i] = 0]. *)
Fixpoint Clear_Registers_loop (todo : nat) (i : nat) (regs : list Z) : list Z :=
  match todo with
  | O => regs
  | S todo' => Clear_Registers_loop todo' (S i) (<[i := 0]> regs)
  end.

Definition Clear_Registers (regs : list Z) : list Z :=
  Clear_Registers_loop 256 0 regs.

(** [cx->dis_regs[(int) Mask_Val] <<= 1; cx->dis_regs[(int) Mask_Val] |= Stream_Val]. *)
Definition shift_in (Stream_Val : Z) (v : Z) : Z :=
  Z.lor (to_int (Z.shiftl v 1)) Stream_Val.

Definition store_bit (regs : list Z) (Mask_Val : ascii) (Stream_Val : Z) : list Z :=
  alter (shift_in Stream_Val) (reg_index Mask_Val) regs.

(** ** The matcher *)

(** One iteration of the loop of [Match_Opcode] at position [i], followed by
    the remaining [todo] iterations.  The result is [None] when a byte outside
    the buffer is read, otherwise the returned [int] and the scratch. *)
Fixpoint Match_Opcode_loop (todo : nat) (i : Z) (Bitmask : string)
    (Bitstream : list Z) (regs : list Z) : option (Z * list Z) :=
  match todo with
  | O => Some (1, regs)
  | S todo' =>
      let Byte_Mask := i ÷ 8 in
      let Bit_Mask := Z.rem i 8 in
      let Byte_Stream := Z.lxor (i ÷ 8) 1 in
      let Bit_Stream := 7 - Z.rem i 8 in
      let Mask_Val := Get_From_Bitmask Bitmask Byte_Mask Bit_Mask in
      match read_byte Bitstream Byte_Stream with
      | None => None
      | Some b =>
          let Stream_Val := Z.land (Z.shiftr b Bit_Stream) 1 in
          if (Mask_Val =? "0")%char || (Mask_Val =? "1")%char then
            if (Mask_Val =? "0")%char then
              if Stream_Val =? 1 then Some (0, regs)
              else Match_Opcode_loop todo' (i + 1) Bitmask Bitstream regs
            else
              if Stream_Val =? 0 then Some (0, regs)
              else Match_Opcode_loop todo' (i + 1) Bitmask Bitstream regs
          else
            Match_Opcode_loop todo' (i + 1) Bitmask Bitstream
              (store_bit regs Mask_Val Stream_Val)
      end
  end.

Definition Match_Opcode (Bitmask : string) (Bitstream : list Z)
    (regs : list Z) : option (Z * list Z) :=
  let regs := Clear_Registers regs in
  let Length := Get_Bitmask_Length Bitmask in
  Match_Opcode_loop (Z.to_nat Length) 0 Bitmask Bitstream regs.

(** [Compare_Opcode]: the older comparator, which walks the pattern character
    by character (spaces included) and reads the stream in plain byte order.
    It returns the [int] result and what it wrote to [stderr]. *)
Fixpoint Compare_Opcode_loop (Bitmask : string) (i : Z) (Bitstream : list Z)
    : option (Z * list string) :=
  match Bitmask with
  | EmptyString => Some (1, [])
  | String c rest =>
      if negb (c =? "x")%char && negb (c =? "1")%char && negb (c =? "0")%char
      then Some (0, ["Invalid Bitmask!" +:+ nl]) (* fprintf(stderr, ...) *)
      else if (c =? "x")%char then Compare_Opcode_loop rest (i + 1) Bitstream
      else
        match read_byte Bitstream (i ÷ 8) with
        | None => None
        | Some b =>
            let Bit := Z.land (Z.shiftr b (7 - Z.rem i 8)) 1 in
            if (c =? "1")%char && (Bit =? 1)
            then Compare_Opcode_loop rest (i + 1) Bitstream
            else if (c =? "0")%char && (Bit =? 0)
            then Compare_Opcode_loop rest (i + 1) Bitstream
            else Some (0, [])
        end
  end.

Definition Compare_Opcode (Bitstream : list Z) (Bitmask : string)
    : option (Z * list string) :=
  Compare_Opcode_loop Bitmask 0 Bitstream.

(** ** [Display_Binary] *)

(** The inner loop [for(j = 7; j >= 0; j--)], from [j = todo - 1] down: what
    it prints for the byte [b]. *)
Fixpoint Display_Binary_bits (todo : nat) (b : Z) : list string :=
  match todo with
  | O => []
  | S todo' =>
      let j := Z.of_nat todo' in
      ((if negb (Z.land b (Z.shiftl 1 j) =? 0) then "1" else "0")
       :: (if j =? 4 then [" "] else []))
      ++ Display_Binary_bits todo' b
  end%list.

(** The outer loop from byte [i] on; [None] when a byte outside the buffer is
    read. *)
Fixpoint Display_Binary_loop (todo : nat) (i : Z) (Bitstream : list Z)
    : option (list string) :=
  match todo with
  | O => Some []
  | S todo' =>
      match read_byte Bitstream i with
      | None => None
      | Some b =>
          match Display_Binary_loop todo' (i + 1) Bitstream with
          | None => None
          | Some rest =>
              Some (Display_Binary_bits 8 b
                    ++ ["  "]
                    ++ (if (Z.rem (i + 1) 2 =? 0) && negb (i =? 0)
                        then ["  "] else [])
                    ++ rest)%list
          end
      end
  end.

(** What [Display_Binary] writes to [stdout]. *)
Definition Display_Binary (Bitstream : list Z) (Count : Z)
    : option (list string) :=
  match Display_Binary_loop (Z.to_nat Count) 0 Bitstream with
  | Some chunks => Some (chunks ++ [nl])%list
  | None => None
  end.

(** ** Reading the matcher: significant positions and stream bits *)

(** The significant (non-space) characters of a pattern, in order. *)
Fixpoint significant (Bitmask : string) : list ascii :=
  match Bitmask with
  | EmptyString => []
  | String c rest =>
      if (c =? " ")%char then significant rest else c :: significant rest
  end.

(** The character at significant position [i] of a pattern. *)
Definition pattern_position (Bitmask : string) (i : Z) : option ascii :=
  if i <? 0 then None else significant Bitmask !! Z.to_nat i.

(** The stream bit that belongs to pattern position [i]: byte [(i/8) XOR 1],
    bit [7 - i % 8]. *)
Definition stream_bit (Bitstream : list Z) (i : Z) : option bool :=
  match read_byte Bitstream (Z.lxor (i / 8) 1) with
  | Some b => Some (Z.testbit b (7 - i mod 8))
  | None => None
  end.

(** The bit a literal pattern character stands for. *)
Definition literal_value (c : ascii) : option bool :=
  if (c =? "0")%char then Some false
  else if (c =? "1")%char then Some true
  else None.

(** Every literal position of the pattern agrees with the stream. *)
Definition literals_agree (Bitmask : string) (Bitstream : list Z) : Prop :=
  ∀ i c v, pattern_position Bitmask i = Some c → literal_value c = Some v →
           stream_bit Bitstream i = Some v.

(** The bytes a pattern of [Length] significant bits spans: whole 16-bit
    words, since the two bytes of a word are read in swapped order. *)
Definition bytes_spanned (Length : Z) : Z := 2 * ((Length + 15) / 16).

(** The pure reading of the loop of [Match_Opcode] over the list of
    (pattern character, stream bit) pairs still to be processed. *)
Fixpoint scan (ps : list (ascii * Z)) (regs : list Z) : Z * list Z :=
  match ps with
  | [] => (1, regs)
  | (c, b) :: ps' =>
      if (c =? "0")%char || (c =? "1")%char then
        if (c =? "0")%char then
          if b =? 1 then (0, regs) else scan ps' regs
        else
          if b =? 0 then (0, regs) else scan ps' regs
      else scan ps' (store_bit regs c b)
  end.

(** The pattern character and the stream bit as the loop computes them at
    position [i], and the pairs it meets from position [i] on. *)
Definition code_char (Bitmask : string) (i : Z) : ascii :=
  Get_From_Bitmask Bitmask (i ÷ 8) (Z.rem i 8).

Definition code_bit (Bitstream : list Z) (i : Z) : Z :=
  match read_byte Bitstream (Z.lxor (i ÷ 8) 1) with
  | Some b => Z.land (Z.shiftr b (7 - Z.rem i 8)) 1
  | None => 0
  end.

Definition pairs (Bitmask : string) (Bitstream : list Z) (i : Z) (n : nat)
    : list (ascii * Z) :=
  (λ j, (code_char Bitmask j, code_bit Bitstream j)) <$> seqZ i (Z.of_nat n).

(** The pair agrees: a literal character is matched by its bit. *)
Definition pair_agrees (p : ascii * Z) : Prop :=
  (p.1 = "0"%char → p.2 ≠ 1) ∧ (p.1 = "1"%char → p.2 ≠ 0).

(** The bits [scan] shifts into cell [k], in order. *)
Definition to_cell (k : nat) (p : ascii * Z) : Prop :=
  is_literal p.1 = false ∧ reg_index p.1 = k.

#[local] Instance to_cell_dec k p : Decision (to_cell k p).
Proof. unfold to_cell. apply _. Defined.

Definition cell_bits (k : nat) (ps : list (ascii * Z)) : list Z :=
  snd <$> filter (to_cell k) ps.

Definition shift_all (bs : list Z) (v : Z) : Z :=
  fold_left (λ v b, shift_in b v) bs v.

(** *** Field values as the specification reads them *)

(** The significant positions of a pattern that hold the character [c]. *)
Definition field_positions (Bitmask : string) (c : ascii) : list Z :=
  filter (λ i, pattern_position Bitmask i = Some c)
         (seqZ 0 (Get_Bitmask_Length Bitmask)).

(** The stream bits at those positions, in pattern order. *)
Definition field_bits (Bitmask : string) (Bitstream : list Z) (c : ascii)
    : list bool :=
  (λ i, default false (stream_bit Bitstream i)) <$> field_positions Bitmask c.

(** Bits assembled most-significant first: each further bit becomes the new
    least-significant bit. *)
Definition assemble_from (bits : list bool) (v : Z) : Z :=
  fold_left (λ v b, 2 * v + Z.b2z b) bits v.

Definition assemble (bits : list bool) : Z := assemble_from bits 0.

(** All pairs of a pattern against a stream, from position 0. *)
Definition all_pairs (Bitmask : string) (Bitstream : list Z) : list (ascii * Z) :=
  pairs Bitmask Bitstream 0 (Z.to_nat (Get_Bitmask_Length Bitmask)).

(** The binary digits found in a text, the other characters left out, and
    the eight bits of a byte from the most significant one down. *)
Fixpoint read_digits (s : string) : list bool :=
  match s with
  | EmptyString => []
  | String c rest =>
      if (c =? "1")%char then true :: read_digits rest
      else if (c =? "0")%char then false :: read_digits rest
      else read_digits rest
  end.

Definition byte_digits (b : Z) : list bool :=
  (λ j, Z.testbit b j) <$> [7; 6; 5; 4; 3; 2; 1; 0].

(** The two bytes of each 16-bit word exchanged; a last single byte stays. *)
Fixpoint swap_bytes (Bitstream : list Z) : list Z :=
  match Bitstream with
  | b0 :: b1 :: rest => b1 :: b0 :: swap_bytes rest
  | other => other
  end.

(** The bit [Compare_Opcode] reads for position [i], in plain byte order, and
    the (character, bit) pairs it meets from position [i] on. *)
Definition plain_bit (Bitstream : list Z) (i : Z) : Z :=
  match read_byte Bitstream (i ÷ 8) with
  | Some b => Z.land (Z.shiftr b (7 - Z.rem i 8)) 1
  | None => 0
  end.

Fixpoint plain_pairs (cs : list ascii) (i : Z) (Bitstream : list Z)
    : list (ascii * Z) :=
  match cs with
  | [] => []
  | c :: rest => (c, plain_bit Bitstream i) :: plain_pairs rest (i + 1) Bitstream
  end.

(** ** printf conversions used by the driver *)

Definition digit_char (d : Z) : ascii :=
  match d with
  | 0 => "0" | 1 => "1" | 2 => "2" | 3 => "3" | 4 => "4" | 5 => "5"
  | 6 => "6" | 7 => "7" | 8 => "8" | 9 => "9" | 10 => "a" | 11 => "b"
  | 12 => "c" | 13 => "d" | 14 => "e" | 15 => "f" | _ => "?"
  end%char.

Fixpoint digits (fuel : nat) (base n : Z) (acc : string) : string :=
  match fuel with
  | O => acc
  | S fuel' =>
      let acc' := String (digit_char (n mod base)) acc in
      if n / base =? 0 then acc' else digits fuel' base (n / base) acc'
  end.

(** An unsigned number in the given base, without padding. *)
Definition fmt_unsigned (base n : Z) : string :=
  digits (S (Z.to_nat (Z.log2 n))) base n EmptyString.

(** [%x] of an [int]: the value is printed as an [unsigned int]. *)
Definition fmt_x (n : Z) : string := fmt_unsigned 16 (n mod 2 ^ 32).

(** [%d]. *)
Definition fmt_d (n : Z) : string :=
  if n <? 0 then "-" +:+ fmt_unsigned 10 (- n) else fmt_unsigned 10 n.

Fixpoint fill (n : nat) (c : ascii) : string :=
  match n with O => EmptyString | S n' => String c (fill n' c) end.

(** Minimum field width: filled on the left ([%4x], [%02x]) or on the right
    ([%-23s]). *)
Definition pad_left (c : ascii) (width : nat) (s : string) : string :=
  fill (width - String.length s) c +:+ s.

Definition pad_right (width : nat) (s : string) : string :=
  s +:+ fill (width - String.length s) " ".

(** [(unsigned char) b]. *)
Definition to_uchar (b : Z) : Z := b mod 256.

(** The number of characters in a list of chunks written to a stream. *)
Fixpoint characters (chunks : list string) : nat :=
  match chunks with
  | [] => 0
  | s :: rest => String.length s + characters rest
  end.

(** ** The opcode registry *)

(** The mnemonic identities [disasm] registers.  The [enum] itself is
    declared in libavrdude.h, which is not part of these sources; the numeric
    value of an enumerator is [opcode_id] of the environment below. *)
Inductive AVR_opcode : Set :=
  | OPCODE_adc | OPCODE_add | OPCODE_adiw | OPCODE_and | OPCODE_andi
  | OPCODE_asr | OPCODE_bclr | OPCODE_bld | OPCODE_brbc | OPCODE_brbs
  | OPCODE_brcc | OPCODE_brcs | OPCODE_break | OPCODE_breq | OPCODE_brge
  | OPCODE_brhc | OPCODE_brhs | OPCODE_brid | OPCODE_brie | OPCODE_brlo
  | OPCODE_brlt | OPCODE_brmi | OPCODE_brne | OPCODE_brpl | OPCODE_brsh
  | OPCODE_brtc | OPCODE_brts | OPCODE_brvc | OPCODE_brvs | OPCODE_bset
  | OPCODE_bst | OPCODE_call | OPCODE_cbi | OPCODE_clc | OPCODE_clh
  | OPCODE_cli | OPCODE_cln | OPCODE_cls | OPCODE_clt | OPCODE_clv
  | OPCODE_clz | OPCODE_com | OPCODE_cp | OPCODE_cpc | OPCODE_cpi
  | OPCODE_cpse | OPCODE_dec | OPCODE_eicall | OPCODE_eijmp | OPCODE_elpm_1
  | OPCODE_elpm_2 | OPCODE_elpm_3 | OPCODE_eor | OPCODE_fmul | OPCODE_fmuls
  | OPCODE_fmulsu | OPCODE_icall | OPCODE_ijmp | OPCODE_in | OPCODE_inc
  | OPCODE_jmp | OPCODE_ld_1 | OPCODE_ld_2 | OPCODE_ld_3 | OPCODE_ld_4
  | OPCODE_ld_5 | OPCODE_ld_6 | OPCODE_ldd_1 | OPCODE_ld_7 | OPCODE_ld_8
  | OPCODE_ld_9 | OPCODE_ldd_2 | OPCODE_ldi | OPCODE_lds | OPCODE_lpm_1
  | OPCODE_lpm_2 | OPCODE_lpm_3 | OPCODE_lsr | OPCODE_mov | OPCODE_movw
  | OPCODE_mul | OPCODE_muls | OPCODE_mulsu | OPCODE_neg | OPCODE_nop
  | OPCODE_or | OPCODE_ori | OPCODE_out | OPCODE_pop | OPCODE_push
  | OPCODE_rcall | OPCODE_ret | OPCODE_reti | OPCODE_rjmp | OPCODE_ror
  | OPCODE_sbc | OPCODE_sbci | OPCODE_sbi | OPCODE_sbic | OPCODE_sbis
  | OPCODE_sbiw | OPCODE_sbr | OPCODE_sbrc | OPCODE_sbrs | OPCODE_sec
  | OPCODE_seh | OPCODE_sei | OPCODE_sen | OPCODE_ser | OPCODE_ses
  | OPCODE_set | OPCODE_sev | OPCODE_sez | OPCODE_sleep | OPCODE_spm
  | OPCODE_st_1 | OPCODE_st_2 | OPCODE_st_3 | OPCODE_st_4 | OPCODE_st_5
  | OPCODE_st_6 | OPCODE_std_1 | OPCODE_st_7 | OPCODE_st_8 | OPCODE_st_9
  | OPCODE_std_2 | OPCODE_sts | OPCODE_sub | OPCODE_subi | OPCODE_swap
  | OPCODE_wdr.

#[global] Instance AVR_opcode_eq_dec : EqDecision AVR_opcode.
Proof. intros a b. unfold Decision. decide equality. Defined.

(** A callback is named by the C function it points to. *)
Record Disasm_opcode : Type := {
  Opcode_String : string;
  mnemo : AVR_opcode;
  Callback : string
}.

(** [Register_Opcode] on the array [cx->dis_op], whose first [cx->dis_n_ops]
    entries are the list. *)
Definition Register_Opcode (Callback' New_Opcode_String : string)
    (mnemo' : AVR_opcode) (dis_op : list Disasm_opcode) : list Disasm_opcode :=
  dis_op ++ [ {| Opcode_String := New_Opcode_String;
                 mnemo := mnemo';
                 Callback := Callback' |} ].

(** The loop of [Supersede_Opcode]: [None] when no entry carries [mnemo']. *)
Fixpoint Supersede_Opcode_loop (Callback' : string) (mnemo' : AVR_opcode)
    (dis_op : list Disasm_opcode) : option (list Disasm_opcode) :=
  match dis_op with
  | [] => None
  | op :: rest =>
      if decide (mnemo op = mnemo')
      then Some ({| Opcode_String := Opcode_String op;
                    mnemo := mnemo op;
                    Callback := Callback' |} :: rest)
      else match Supersede_Opcode_loop Callback' mnemo' rest with
           | Some rest' => Some (op :: rest')
           | None => None
           end
  end.

Definition Comparison (Element1 Element2 : Disasm_opcode) : Z :=
  let OC1 := Element1 in
  let OC2 := Element2 in
  let SP1 := Get_Specifity (Opcode_String OC1) in
  let SP2 := Get_Specifity (Opcode_String OC2) in
  if SP1 <? SP2 then 1
  else if SP2 =? SP1 then 0
  else -1.

(** What [qsort] promises for a comparison function: the result holds the
    same elements, and no element is followed by one that compares smaller.
    The order of elements that compare equal is left open. *)
Definition ascending {A} (compar : A → A → Z) (l : list A) : Prop :=
  StronglySorted (λ a b, compar a b ≤ 0) l.

(** The callback that a list of supersessions holds for a mnemonic. *)
Fixpoint superseding (l : list (string * AVR_opcode)) (m : AVR_opcode)
    : option string :=
  match l with
  | [] => None
  | r :: rest => if decide (r.2 = m) then Some r.1 else superseding rest m
  end.

(** The calls of [disasm], in source order. *)
Definition base_registrations : list (string * string * AVR_opcode) :=
  [ ("adc_Callback", "0001 11rd  dddd rrrr", OPCODE_adc);
    ("add_Callback", "0000 11rd  dddd rrrr", OPCODE_add);
    ("adiw_Callback", "1001 0110  KKdd KKKK", OPCODE_adiw);
    ("and_Callback", "0010 00rd  dddd rrrr", OPCODE_and);
    ("andi_Callback", "0111 KKKK  dddd KKKK", OPCODE_andi);
    ("asr_Callback", "1001 010d  dddd 0101", OPCODE_asr);
    ("bclr_Callback", "1001 0100  1sss 1000", OPCODE_bclr);
    ("bld_Callback", "1111 100d  dddd 0bbb", OPCODE_bld);
    ("brbc_Callback", "1111 01kk  kkkk ksss", OPCODE_brbc);
    ("brbs_Callback", "1111 00kk  kkkk ksss", OPCODE_brbs);
    ("brcc_Callback", "1111 01kk  kkkk k000", OPCODE_brcc);
    ("brcs_Callback", "1111 00kk  kkkk k000", OPCODE_brcs);
    ("break_Callback", "1001 0101  1001 1000", OPCODE_break);
    ("breq_Callback", "1111 00kk  kkkk k001", OPCODE_breq);
    ("brge_Callback", "1111 01kk  kkkk k100", OPCODE_brge);
    ("brhc_Callback", "1111 01kk  kkkk k101", OPCODE_brhc);
    ("brhs_Callback", "1111 00kk  kkkk k101", OPCODE_brhs);
    ("brid_Callback", "1111 01kk  kkkk k111", OPCODE_brid);
    ("brie_Callback", "1111 00kk  kkkk k111", OPCODE_brie);
    ("brlo_Callback", "1111 00kk  kkkk k000", OPCODE_brlo);
    ("brlt_Callback", "1111 00kk  kkkk k100", OPCODE_brlt);
    ("brmi_Callback", "1111 00kk  kkkk k010", OPCODE_brmi);
    ("brne_Callback", "1111 01kk  kkkk k001", OPCODE_brne);
    ("brpl_Callback", "1111 01kk  kkkk k010", OPCODE_brpl);
    ("brsh_Callback", "1111 01kk  kkkk k000", OPCODE_brsh);
    ("brtc_Callback", "1111 01kk  kkkk k110", OPCODE_brtc);
    ("brts_Callback", "1111 00kk  kkkk k110", OPCODE_brts);
    ("brvc_Callback", "1111 01kk  kkkk k011", OPCODE_brvc);
    ("brvs_Callback", "1111 00kk  kkkk k011", OPCODE_brvs);
    ("bset_Callback", "1001 0100  0sss 1000", OPCODE_bset);
    ("bst_Callback", "1111 101d  dddd 0bbb", OPCODE_bst);
    ("call_Callback", "1001 010k  kkkk 111k    kkkk kkkk  kkkk kkkk", OPCODE_call);
    ("cbi_Callback", "1001 1000  AAAA Abbb", OPCODE_cbi);
    ("clc_Callback", "1001 0100  1000 1000", OPCODE_clc);
    ("clh_Callback", "1001 0100  1101 1000", OPCODE_clh);
    ("cli_Callback", "1001 0100  1111 1000", OPCODE_cli);
    ("cln_Callback", "1001 0100  1010 1000", OPCODE_cln);
    ("cls_Callback", "1001 0100  1100 1000", OPCODE_cls);
    ("clt_Callback", "1001 0100  1110 1000", OPCODE_clt);
    ("clv_Callback", "1001 0100  1011 1000", OPCODE_clv);
    ("clz_Callback", "1001 0100  1001 1000", OPCODE_clz);
    ("com_Callback", "1001 010d  dddd 0000", OPCODE_com);
    ("cp_Callback", "0001 01rd  dddd rrrr", OPCODE_cp);
    ("cpc_Callback", "0000 01rd  dddd rrrr", OPCODE_cpc);
    ("cpi_Callback", "0011 KKKK  dddd KKKK", OPCODE_cpi);
    ("cpse_Callback", "0001 00rd  dddd rrrr", OPCODE_cpse);
    ("dec_Callback", "1001 010d  dddd 1010", OPCODE_dec);
    ("eicall_Callback", "1001 0101  0001 1001", OPCODE_eicall);
    ("eijmp_Callback", "1001 0100  0001 1001", OPCODE_eijmp);
    ("elpm1_Callback", "1001 0101  1101 1000", OPCODE_elpm_1);
    ("elpm2_Callback", "1001 000d  dddd 0110", OPCODE_elpm_2);
    ("elpm3_Callback", "1001 000d  dddd 0111", OPCODE_elpm_3);
    ("eor_Callback", "0010 01rd  dddd rrrr", OPCODE_eor);
    ("fmul_Callback", "0000 0011  0ddd 1rrr", OPCODE_fmul);
    ("fmuls_Callback", "0000 0011  1ddd 0rrr", OPCODE_fmuls);
    ("fmulsu_Callback", "0000 0011  1ddd 1rrr", OPCODE_fmulsu);
    ("icall_Callback", "1001 0101  0000 1001", OPCODE_icall);
    ("ijmp_Callback", "1001 0100  0000 1001", OPCODE_ijmp);
    ("in_Callback", "1011 0AAd  dddd AAAA", OPCODE_in);
    ("inc_Callback", "1001 010d  dddd 0011", OPCODE_inc);
    ("jmp_Callback", "1001 010k  kkkk 110k    kkkk kkkk  kkkk kkkk", OPCODE_jmp);
    ("ldx1_Callback", "1001 000d  dddd 1100", OPCODE_ld_1);
    ("ldx2_Callback", "1001 000d  dddd 1101", OPCODE_ld_2);
    ("ldx3_Callback", "1001 000d  dddd 1110", OPCODE_ld_3);
    ("ldy1_Callback", "1000 000d  dddd 1000", OPCODE_ld_4);
    ("ldy2_Callback", "1001 000d  dddd 1001", OPCODE_ld_5);
    ("ldy3_Callback", "1001 000d  dddd 1010", OPCODE_ld_6);
    ("ldy4_Callback", "10q0 qq0d  dddd 1qqq", OPCODE_ldd_1);
    ("ldz1_Callback", "1000 000d  dddd 0000", OPCODE_ld_7);
    ("ldz2_Callback", "1001 000d  dddd 0001", OPCODE_ld_8);
    ("ldz3_Callback", "1001 000d  dddd 0010", OPCODE_ld_9);
    ("ldz4_Callback", "10q0 qq0d  dddd 0qqq", OPCODE_ldd_2);
    ("ldi_Callback", "1110 KKKK  dddd KKKK", OPCODE_ldi);
    ("lds_Callback", "1001 000d  dddd 0000    kkkk kkkk  kkkk kkkk", OPCODE_lds);
    ("lpm1_Callback", "1001 0101  1100 1000", OPCODE_lpm_1);
    ("lpm2_Callback", "1001 000d  dddd 0100", OPCODE_lpm_2);
    ("lpm3_Callback", "1001 000d  dddd 0101", OPCODE_lpm_3);
    ("lsr_Callback", "1001 010d  dddd 0110", OPCODE_lsr);
    ("mov_Callback", "0010 11rd  dddd rrrr", OPCODE_mov);
    ("movw_Callback", "0000 0001  dddd rrrr", OPCODE_movw);
    ("mul_Callback", "1001 11rd  dddd rrrr", OPCODE_mul);
    ("muls_Callback", "0000 0010  dddd rrrr", OPCODE_muls);
    ("mulsu_Callback", "0000 0011  0ddd 0rrr", OPCODE_mulsu);
    ("neg_Callback", "1001 010d  dddd 0001", OPCODE_neg);
    ("nop_Callback", "0000 0000  0000 0000", OPCODE_nop);
    ("or_Callback", "0010 10rd  dddd rrrr", OPCODE_or);
    ("ori_Callback", "0110 KKKK  dddd KKKK", OPCODE_ori);
    ("out_Callback", "1011 1AAr  rrrr AAAA", OPCODE_out);
    ("pop_Callback", "1001 000d  dddd 1111", OPCODE_pop);
    ("push_Callback", "1001 001d  dddd 1111", OPCODE_push);
    ("rcall_Callback", "1101 kkkk  kkkk kkkk", OPCODE_rcall);
    ("ret_Callback", "1001 0101  0000 1000", OPCODE_ret);
    ("reti_Callback", "1001 0101  0001 1000", OPCODE_reti);
    ("rjmp_Callback", "1100 kkkk  kkkk kkkk", OPCODE_rjmp);
    ("ror_Callback", "1001 010d  dddd 0111", OPCODE_ror);
    ("sbc_Callback", "0000 10rd  dddd rrrr", OPCODE_sbc);
    ("sbci_Callback", "0100 KKKK  dddd KKKK", OPCODE_sbci);
    ("sbi_Callback", "1001 1010  AAAA Abbb", OPCODE_sbi);
    ("sbic_Callback", "1001 1001  AAAA Abbb", OPCODE_sbic);
    ("sbis_Callback", "1001 1011  AAAA Abbb", OPCODE_sbis);
    ("sbiw_Callback", "1001 0111  KKdd KKKK", OPCODE_sbiw);
    ("sbr_Callback", "0110 KKKK  dddd KKKK", OPCODE_sbr);
    ("sbrc_Callback", "1111 110r  rrrr 0bbb", OPCODE_sbrc);
    ("sbrs_Callback", "1111 111r  rrrr 0bbb", OPCODE_sbrs);
    ("sec_Callback", "1001 0100  0000 1000", OPCODE_sec);
    ("seh_Callback", "1001 0100  0101 1000", OPCODE_seh);
    ("sei_Callback", "1001 0100  0111 1000", OPCODE_sei);
    ("sen_Callback", "1001 0100  0010 1000", OPCODE_sen);
    ("ser_Callback", "1110 1111  dddd 1111", OPCODE_ser);
    ("ses_Callback", "1001 0100  0100 1000", OPCODE_ses);
    ("set_Callback", "1001 0100  0110 1000", OPCODE_set);
    ("sev_Callback", "1001 0100  0011 1000", OPCODE_sev);
    ("sez_Callback", "1001 0100  0001 1000", OPCODE_sez);
    ("sleep_Callback", "1001 0101  1000 1000", OPCODE_sleep);
    ("spm_Callback", "1001 0101  1110 1000", OPCODE_spm);
    ("stx1_Callback", "1001 001r  rrrr 1100", OPCODE_st_1);
    ("stx2_Callback", "1001 001r  rrrr 1101", OPCODE_st_2);
    ("stx3_Callback", "1001 001r  rrrr 1110", OPCODE_st_3);
    ("sty1_Callback", "1000 001r  rrrr 1000", OPCODE_st_4);
    ("sty2_Callback", "1001 001r  rrrr 1001", OPCODE_st_5);
    ("sty3_Callback", "1001 001r  rrrr 1010", OPCODE_st_6);
    ("sty4_Callback", "10q0 qq1r  rrrr 1qqq", OPCODE_std_1);
    ("stz1_Callback", "1000 001r  rrrr 0000", OPCODE_st_7);
    ("stz2_Callback", "1001 001r  rrrr 0001", OPCODE_st_8);
    ("stz3_Callback", "1001 001r  rrrr 0010", OPCODE_st_9);
    ("stz4_Callback", "10q0 qq1r  rrrr 0qqq", OPCODE_std_2);
    ("sts_Callback", "1001 001d  dddd 0000    kkkk kkkk  kkkk kkkk", OPCODE_sts);
    ("sub_Callback", "0001 10rd  dddd rrrr", OPCODE_sub);
    ("subi_Callback", "0101 KKKK  dddd KKKK", OPCODE_subi);
    ("swap_Callback", "1001 010d  dddd 0010", OPCODE_swap);
    ("wdr_Callback", "1001 0101  1010 1000", OPCODE_wdr) ].

Definition pseudocode_supersessions : list (string * AVR_opcode) :=
  [ ("adc_Callback_PC", OPCODE_adc);
    ("add_Callback_PC", OPCODE_add);
    ("sub_Callback_PC", OPCODE_sub);
    ("sbc_Callback_PC", OPCODE_sbc);
    ("mov_Callback_PC", OPCODE_mov);
    ("brcc_Callback_PC", OPCODE_brcc);
    ("brcs_Callback_PC", OPCODE_brcs);
    ("breq_Callback_PC", OPCODE_breq);
    ("brge_Callback_PC", OPCODE_brge);
    ("brhc_Callback_PC", OPCODE_brhc);
    ("brhs_Callback_PC", OPCODE_brhs);
    ("brid_Callback_PC", OPCODE_brid);
    ("brie_Callback_PC", OPCODE_brie);
    ("brlo_Callback_PC", OPCODE_brlo);
    ("brlt_Callback_PC", OPCODE_brlt);
    ("brmi_Callback_PC", OPCODE_brmi);
    ("brne_Callback_PC", OPCODE_brne);
    ("brpl_Callback_PC", OPCODE_brpl);
    ("brsh_Callback_PC", OPCODE_brsh);
    ("brtc_Callback_PC", OPCODE_brtc);
    ("brts_Callback_PC", OPCODE_brts);
    ("brvc_Callback_PC", OPCODE_brvc);
    ("brvs_Callback_PC", OPCODE_brvs);
    ("out_Callback_PC", OPCODE_out);
    ("in_Callback_PC", OPCODE_in);
    ("cli_Callback_PC", OPCODE_cli);
    ("sei_Callback_PC", OPCODE_sei);
    ("ret_Callback_PC", OPCODE_ret);
    ("reti_Callback_PC", OPCODE_reti);
    ("andi_Callback_PC", OPCODE_andi);
    ("subi_Callback_PC", OPCODE_subi);
    ("sbci_Callback_PC", OPCODE_sbci);
    ("sbr_Callback_PC", OPCODE_sbr);
    ("ori_Callback_PC", OPCODE_ori);
    ("ldi_Callback_PC", OPCODE_ldi);
    ("lds_Callback_PC", OPCODE_lds);
    ("sts_Callback_PC", OPCODE_sts);
    ("call_Callback_PC", OPCODE_call);
    ("rcall_Callback_PC", OPCODE_rcall);
    ("ror_Callback_PC", OPCODE_ror);
    ("lsr_Callback_PC", OPCODE_lsr);
    ("eor_Callback_PC", OPCODE_eor);
    ("swap_Callback_PC", OPCODE_swap);
    ("jmp_Callback_PC", OPCODE_jmp);
    ("rjmp_Callback_PC", OPCODE_rjmp);
    ("cpi_Callback_PC", OPCODE_cpi);
    ("asr_Callback_PC", OPCODE_asr);
    ("inc_Callback_PC", OPCODE_inc);
    ("dec_Callback_PC", OPCODE_dec);
    ("cp_Callback_PC", OPCODE_cp);
    ("cpc_Callback_PC", OPCODE_cpc);
    ("cpse_Callback_PC", OPCODE_cpse);
    ("and_Callback_PC", OPCODE_and);
    ("or_Callback_PC", OPCODE_or);
    ("mul_Callback_PC", OPCODE_mul);
    ("sbi_Callback_PC", OPCODE_sbi);
    ("sbis_Callback_PC", OPCODE_sbis);
    ("sbic_Callback_PC", OPCODE_sbic);
    ("cbi_Callback_PC", OPCODE_cbi);
    ("ser_Callback_PC", OPCODE_ser);
    ("movw_Callback_PC", OPCODE_movw);
    ("adiw_Callback_PC", OPCODE_adiw);
    ("lpm1_Callback_PC", OPCODE_lpm_1);
    ("stx2_Callback_PC", OPCODE_st_2) ].

(** ** The resolver *)

(** The loop of [Get_Next_Opcode] over the entries from index [i] on. *)
Fixpoint Get_Next_Opcode_loop (ops : list Disasm_opcode) (i : Z)
    (Bitstream : list Z) (regs : list Z) : option (Z * list Z) :=
  match ops with
  | [] => Some (-1, regs)
  | op :: rest =>
      match Match_Opcode (Opcode_String op) Bitstream regs with
      | None => None
      | Some (r, regs') =>
          if r =? 1 then Some (i, regs')
          else Get_Next_Opcode_loop rest (i + 1) Bitstream regs'
      end
  end.

Definition Get_Next_Opcode (dis_op : list Disasm_opcode) (Bitstream : list Z)
    (regs : list Z) : option (Z * list Z) :=
  Get_Next_Opcode_loop dis_op 0 Bitstream regs.

(** What a match attempt returns, the scratch left aside: [None] when it
    reads outside the buffer. *)
Definition match_outcome (Bitmask : string) (Bitstream : list Z) : option Z :=
  fst <$> Match_Opcode Bitmask Bitstream [].

(** Every pattern of the registry has at least 8 significant characters. *)
Definition whole_bytes (dis_op : list Disasm_opcode) : Prop :=
  Forall (λ op, 8 ≤ Get_Bitmask_Length (Opcode_String op)) dis_op.

(** The index the resolver returns, the scratch left aside. *)
Definition resolve_index (dis_op : list Disasm_opcode) (Bitstream : list Z)
    : option Z :=
  fst <$> Get_Next_Opcode dis_op Bitstream [].

(** The number of bytes the driver takes an entry to occupy. *)
Definition bytes_of (op : Disasm_opcode) : Z :=
  Get_Bitmask_Length (Opcode_String op) ÷ 8.


(** [Bitstream] holds every byte the pattern of the entry spans. *)
Definition spans (op : Disasm_opcode) (Bitstream : list Z) : Prop :=
  bytes_spanned (Get_Bitmask_Length (Opcode_String op))
  ≤ Z.of_nat (length Bitstream).

#[global] Instance spans_dec op Bitstream : Decision (spans op Bitstream).
Proof. unfold spans. apply _. Defined.

(** The number of ['0'] and ['1'] characters of a pattern. *)
Fixpoint literal_count (Opcode : string) : nat :=
  match Opcode with
  | EmptyString => 0
  | String c rest =>
      if is_literal c then S (literal_count rest) else literal_count rest
  end.

(** The specificity of an entry. *)
Definition specificity (op : Disasm_opcode) : Z :=
  Get_Specifity (Opcode_String op).

(** A pattern made of literals only, and a pattern with at least one field
    (or wildcard) character. *)
Definition all_literal (Opcode : string) : Prop :=
  Forall (λ c, is_literal c = true) (significant Opcode).

Definition has_field (Opcode : string) : Prop :=
  Exists (λ c, is_literal c = false) (significant Opcode).

(** The entries of specificity [s], in the order of the list. *)
Definition of_specificity (s : Z) (dis_op : list Disasm_opcode) : list Disasm_opcode :=
  filter (λ op, specificity op = s) dis_op.

(** The characters the specification allows in a pattern, and those
    [Compare_Opcode] allows. *)
Definition spec_valid (c : ascii) : Prop := c ∈ ["0"; "1"; "x"; " "]%char.

Definition compare_valid (c : ascii) : Prop := c ∈ ["x"; "1"; "0"]%char.

Definition invalid_bitmask_message : string := "Invalid Bitmask!" +:+ nl.

(** The pointer [Bitstream + Pos]: defined from the start of the buffer to
    one past its end. *)
Definition ptr_add (Bitstream : list Z) (Pos : Z) : option (list Z) :=
  if (Pos <? 0) || (Z.of_nat (length Bitstream) <? Pos) then None
  else Some (drop (Z.to_nat Pos) Bitstream).

(** ** The driver's state and its collaborators *)

Record Disasm_options : Type := {
  Pass : Z;
  Process_Labels : bool;
  Show_PseudoCode : bool;
  CodeStyle : Z;
  Show_Addresses : bool;
  Show_Cycles : bool;
  Show_Opcodes : bool;
  Show_Comments : bool;
  Tagfile : option string
}.

(** A row of the table [avr_opcodes[]] (declared outside these sources), as
    far as [disasm.c] reads it. *)
Record opcode_row : Type := {
  row_mnemo : Z;
  row_opcode : string;
  clocks_e : string
}.

(** Everything the driver reads or writes: the [cx->dis_*] fields, the two
    output streams as the list of chunks written so far, and the state [ext]
    that the collaborating modules keep for themselves. *)
Record world (Ext : Type) : Type := {
  dis_op : list Disasm_opcode;
  dis_regs : list Z;
  dis_opts : Disasm_options;
  dis_code : string;
  dis_comment : string;
  dis_after_code : string;
  stdout : list string;
  stderr : list string;
  ext : Ext
}.

Arguments dis_op {Ext} _.
Arguments dis_regs {Ext} _.
Arguments dis_opts {Ext} _.
Arguments dis_code {Ext} _.
Arguments dis_comment {Ext} _.
Arguments dis_after_code {Ext} _.
Arguments stdout {Ext} _.
Arguments stderr {Ext} _.
Arguments ext {Ext} _.

(** What [disasm.c] takes from the rest of avrdude and from the C library.
    The collaborators may read and write the whole state.  [qsort] is only
    known by its contract. *)
Class Environment : Type := {
  Ext : Type;
  avr_opcodes : list opcode_row;
  opcode_id : AVR_opcode → Z;
  CODESTYLE_AVRGCC : Z;
  qsort : (Disasm_opcode → Disasm_opcode → Z) → list Disasm_opcode → list Disasm_opcode;
  qsort_permutation : ∀ l, Permutation l (qsort Comparison l);
  qsort_ascending : ∀ l, ascending Comparison (qsort Comparison l);
  Read_Tagfile : string → world Ext → Z * world Ext;
  Tagfile_Process_Data : list Z → Z → world Ext → Z * world Ext;
  Enumerate_Labels : world Ext → world Ext;
  Emit_Used_IO_Registers : world Ext → world Ext;
  Print_JumpCalls : Z → world Ext → world Ext;
  run_Callback : string → list Z → Z → AVR_opcode → world Ext → world Ext;
  msg_error : string → world Ext → world Ext
}.

(** How a run of the driver can end. *)
Inductive result (A : Type) : Type :=
  | Done (a : A)
  | Undefined
  | OutOfFuel.

Arguments Done {A} _.
Arguments Undefined {A}.
Arguments OutOfFuel {A}.

Section Driver.

Context `{Env : Environment}.

Definition M (A : Type) : Type := world Ext → result (A * world Ext).

Definition ret {A} (a : A) : M A := λ w, Done (a, w).

Definition bind {A B} (c : M A) (k : A → M B) : M B :=
  λ w, match c w with
       | Done (a, w') => k a w'
       | Undefined => Undefined
       | OutOfFuel => OutOfFuel
       end.

Notation "'let*' x := c 'in' k" := (bind c (λ x, k))
  (at level 10, x name, c at level 100, k at level 200).
Notation "c ;; k" := (bind c (λ _, k))
  (at level 100, k at level 200, right associativity).

Definition get : M (world Ext) := λ w, Done (w, w).

Definition modify (f : world Ext → world Ext) : M unit := λ w, Done (tt, f w).

Definition call {A} (f : world Ext → A * world Ext) : M A := λ w, Done (f w).

Definition defined {A} (o : option A) : M A :=
  λ w, match o with Some a => Done (a, w) | None => Undefined end.

Definition when (b : bool) (c : M unit) : M unit := if b then c else ret tt.

Definition set_dis_op (ops : list Disasm_opcode) (w : world Ext) : world Ext :=
  {| dis_op := ops; dis_regs := dis_regs w; dis_opts := dis_opts w;
     dis_code := dis_code w; dis_comment := dis_comment w;
     dis_after_code := dis_after_code w;
     stdout := stdout w; stderr := stderr w; ext := ext w |}.

Definition set_dis_regs (regs : list Z) (w : world Ext) : world Ext :=
  {| dis_op := dis_op w; dis_regs := regs; dis_opts := dis_opts w;
     dis_code := dis_code w; dis_comment := dis_comment w;
     dis_after_code := dis_after_code w;
     stdout := stdout w; stderr := stderr w; ext := ext w |}.

Definition set_Pass (n : Z) (w : world Ext) : world Ext :=
  let o := dis_opts w in
  {| dis_op := dis_op w; dis_regs := dis_regs w;
     dis_opts := {| Pass := n; Process_Labels := Process_Labels o;
                    Show_PseudoCode := Show_PseudoCode o;
                    CodeStyle := CodeStyle o;
                    Show_Addresses := Show_Addresses o;
                    Show_Cycles := Show_Cycles o;
                    Show_Opcodes := Show_Opcodes o;
                    Show_Comments := Show_Comments o;
                    Tagfile := Tagfile o |};
     dis_code := dis_code w; dis_comment := dis_comment w;
     dis_after_code := dis_after_code w;
     stdout := stdout w; stderr := stderr w; ext := ext w |}.

(** [cx->dis_code[0] = 0; cx->dis_comment[0] = 0; cx->dis_after_code[0] = 0]. *)
Definition clear_buffers (w : world Ext) : world Ext :=
  {| dis_op := dis_op w; dis_regs := dis_regs w; dis_opts := dis_opts w;
     dis_code := EmptyString; dis_comment := EmptyString;
     dis_after_code := EmptyString;
     stdout := stdout w; stderr := stderr w; ext := ext w |}.

Definition write_stdout (s : string) (w : world Ext) : world Ext :=
  {| dis_op := dis_op w; dis_regs := dis_regs w; dis_opts := dis_opts w;
     dis_code := dis_code w; dis_comment := dis_comment w;
     dis_after_code := dis_after_code w;
     stdout := stdout w ++ [s]; stderr := stderr w; ext := ext w |}.

Definition write_stderr (s : string) (w : world Ext) : world Ext :=
  {| dis_op := dis_op w; dis_regs := dis_regs w; dis_opts := dis_opts w;
     dis_code := dis_code w; dis_comment := dis_comment w;
     dis_after_code := dis_after_code w;
     stdout := stdout w; stderr := stderr w ++ [s]; ext := ext w |}.

Definition printf (s : string) : M unit := modify (write_stdout s).

Definition fprintf_stderr (s : string) : M unit := modify (write_stderr s).

(** [Supersede_Opcode]: on failure the message names the mnemonic through
    [avr_opcodes[mnemo].opcode]. *)
Definition Supersede_Opcode (Callback' : string) (mnemo' : AVR_opcode) : M unit :=
  let* w := get in
  match Supersede_Opcode_loop Callback' mnemo' (dis_op w) with
  | Some ops => modify (set_dis_op ops)
  | None =>
      let* row := defined (at_index avr_opcodes (opcode_id mnemo')) in
      fprintf_stderr ("Error: No callback fund to supersede opcode "
                      +:+ fmt_d (opcode_id mnemo') +:+ " ("
                      +:+ row_opcode row +:+ ")." +:+ nl)
  end.

(** [Get_Next_Opcode(Bitstream + Pos)] on the state. *)
Definition resolve (Bitstream : list Z) (Pos : Z) : M Z :=
  let* p := defined (ptr_add Bitstream Pos) in
  let* w := get in
  let* r := defined (Get_Next_Opcode (dis_op w) p (dis_regs w)) in
  modify (set_dis_regs r.2) ;;
  ret r.1.

(** [cx->dis_op[Opcode].Callback(Bitstream + Pos, Pos, cx->dis_op[Opcode].mnemo)]. *)
Definition invoke_Callback (Bitstream : list Z) (Pos Opcode : Z) : M unit :=
  let* w := get in
  let* op := defined (at_index (dis_op w) Opcode) in
  let* p := defined (ptr_add Bitstream Pos) in
  modify (run_Callback (Callback op) p Pos (mnemo op)).

(** [Get_Bitmask_Length(cx->dis_op[Opcode].Opcode_String) / 8]. *)
Definition opcode_bytes (Opcode : Z) : M Z :=
  let* w := get in
  let* op := defined (at_index (dis_op w) Opcode) in
  ret (Get_Bitmask_Length (Opcode_String op) ÷ 8).

(** *** Pass 1 *)

Definition pass1_body (Bitstream : list Z) (Pos : Z) : M Z :=
  let* Opcode := resolve Bitstream Pos in
  if Opcode =? -1 then ret (Pos + 2)
  else
    invoke_Callback Bitstream Pos Opcode ;;
    let* n := opcode_bytes Opcode in
    ret (Pos + n).

Fixpoint pass1_loop (fuel : nat) (Bitstream : list Z) (Read Pos : Z) : M unit :=
  if Pos <? Read then
    match fuel with
    | O => λ _, OutOfFuel
    | S fuel' =>
        let* Pos' := pass1_body Bitstream Pos in
        pass1_loop fuel' Bitstream Read Pos'
    end
  else ret tt.

(** *** Pass 2 *)

(** [for(i = 0; i < n; i++) printf("%02x ", (unsigned char) (Bitstream[Pos + i]))]. *)
Fixpoint print_opcode_bytes (todo : nat) (i : Z) (Bitstream : list Z) (Pos : Z)
    : M unit :=
  match todo with
  | O => ret tt
  | S todo' =>
      let* b := defined (read_byte Bitstream (Pos + i)) in
      printf (pad_left "0" 2 (fmt_x (to_uchar b)) +:+ " ") ;;
      print_opcode_bytes todo' (i + 1) Bitstream Pos
  end.

(** [for(i = 0; i < 5 - n; i++) printf("   ")]. *)
Fixpoint print_missing_spaces (todo : nat) : M unit :=
  match todo with
  | O => ret tt
  | S todo' => printf "   " ;; print_missing_spaces todo'
  end.

Definition is_empty (s : string) : bool :=
  match s with EmptyString => true | String _ _ => false end.

(** The branch [Opcode != -1] of the second loop. *)
Definition emit_instruction (Bitstream : list Z) (Pos Opcode : Z) : M Z :=
  modify clear_buffers ;;
  invoke_Callback Bitstream Pos Opcode ;;
  let* w := get in
  when (Process_Labels (dis_opts w)) (modify (Print_JumpCalls Pos)) ;;
  let* w := get in
  when (Show_Addresses (dis_opts w))
       (printf (pad_left " " 4 (fmt_x Pos) +:+ ":   ")) ;;
  let* w := get in
  when (Show_Cycles (dis_opts w))
       (let* op := defined (at_index (dis_op w) Opcode) in
        let* row := defined (at_index avr_opcodes (opcode_id (mnemo op))) in
        printf ("[" +:+ pad_right 3 (clocks_e row) +:+ "] ")) ;;
  let* w := get in
  when (Show_Opcodes (dis_opts w))
       (let* n := opcode_bytes Opcode in
        print_opcode_bytes (Z.to_nat n) 0 Bitstream Pos ;;
        printf " " ;;
        print_missing_spaces (Z.to_nat (5 - n))) ;;
  let* w := get in
  (if is_empty (dis_code w) then
     let* op := defined (at_index (dis_op w) Opcode) in
     printf ("; - Not implemented opcode: " +:+ fmt_d (opcode_id (mnemo op))
             +:+ " -" +:+ nl)
   else if is_empty (dis_comment w) || negb (Show_Comments (dis_opts w)) then
     printf (dis_code w +:+ nl)
   else if negb (Show_PseudoCode (dis_opts w)) then
     printf (pad_right 23 (dis_code w) +:+ " ; " +:+ dis_comment w +:+ nl)
   else
     printf (pad_right 35 (dis_code w) +:+ " ; " +:+ dis_comment w +:+ nl)) ;;
  let* w := get in
  printf (dis_after_code w) ;;
  let* n := opcode_bytes Opcode in
  ret (Pos + n).

(** The text of the placeholder for the word [hi lo] at [Pos]. *)
Definition invalid_opcode_line (hi lo Pos : Z) : string :=
  ".word 0x" +:+ pad_left "0" 2 (fmt_x (to_uchar hi))
  +:+ pad_left "0" 2 (fmt_x (to_uchar lo))
  +:+ "    ; Invalid opcode at 0x" +:+ pad_left "0" 4 (fmt_x Pos)
  +:+ " (" +:+ fmt_d Pos +:+ "). Disassembler skipped two bytes." +:+ nl.

(** The branch [Opcode == -1] of the second loop. *)
Definition emit_invalid (Bitstream : list Z) (Pos : Z) : M Z :=
  let* hi := defined (read_byte Bitstream (Pos + 1)) in
  let* lo := defined (read_byte Bitstream Pos) in
  printf (invalid_opcode_line hi lo Pos) ;;
  ret (Pos + 2).

Definition pass2_body (Bitstream : list Z) (Pos : Z) : M Z :=
  let* Added := call (Tagfile_Process_Data Bitstream Pos) in
  if negb (Added =? 0) then ret (Pos + Added)
  else
    let* Opcode := resolve Bitstream Pos in
    if negb (Opcode =? -1) then emit_instruction Bitstream Pos Opcode
    else emit_invalid Bitstream Pos.

Fixpoint pass2_loop (fuel : nat) (Bitstream : list Z) (Read Pos : Z) : M unit :=
  if Pos <? Read then
    match fuel with
    | O => λ _, OutOfFuel
    | S fuel' =>
        let* Pos' := pass2_body Bitstream Pos in
        pass2_loop fuel' Bitstream Read Pos'
    end
  else ret tt.

(** *** [Disassemble] and [disasm] *)

(** Each of the two loops may run for at most [fuel] iterations. *)
Definition Disassemble (fuel : nat) (Bitstream : list Z) (Read addr : Z) : M unit :=
  modify (set_Pass 1) ;;
  let* w := get in
  let* Pos :=
    (if Process_Labels (dis_opts w)
        || (negb (Show_PseudoCode (dis_opts w))
            && (CodeStyle (dis_opts w) =? CODESTYLE_AVRGCC))
     then
       pass1_loop fuel Bitstream Read 0 ;;
       modify Enumerate_Labels ;;
       modify (set_Pass 2) ;;
       ret 0
     else ret 0) in
  let* w := get in
  when (CodeStyle (dis_opts w) =? CODESTYLE_AVRGCC)
       (modify Emit_Used_IO_Registers) ;;
  pass2_loop fuel Bitstream Read Pos ;;
  let* w := get in
  when (Show_PseudoCode (dis_opts w)) (printf ("}" +:+ nl) ;; printf nl).

Definition register_all (dis_op : list Disasm_opcode) : list Disasm_opcode :=
  fold_left (λ ops r, Register_Opcode r.1.1 r.1.2 r.2 ops) base_registrations dis_op.

Fixpoint supersede_all (l : list (string * AVR_opcode)) : M unit :=
  match l with
  | [] => ret tt
  | r :: rest => Supersede_Opcode r.1 r.2 ;; supersede_all rest
  end.

(** [for(i = 0; i < N; i++) if(avr_opcodes[i].mnemo != i)]: [true] when no
    row fails. *)
Fixpoint table_check (rows : list opcode_row) (i : Z) : bool :=
  match rows with
  | [] => true
  | row :: rest =>
      if negb (row_mnemo row =? i) then false else table_check rest (i + 1)
  end.

Definition table_broken_message : string :=
  "avr_opcodes[] table broken (this should never happen)" +:+ nl.

(** The first statement of [disasm]: the tag file is read when one is
    configured. *)
Definition after_tagfile (w : world Ext) : Z * world Ext :=
  match Tagfile (dis_opts w) with
  | Some name => Read_Tagfile name w
  | None => (1, w)
  end.

(** The supersessions as a function of the registry alone: [None] when one
    of the mnemonics is not registered. *)
Fixpoint supersede_list (l : list (string * AVR_opcode))
    (dis_op : list Disasm_opcode) : option (list Disasm_opcode) :=
  match l with
  | [] => Some dis_op
  | r :: rest =>
      match Supersede_Opcode_loop r.1 r.2 dis_op with
      | Some dis_op' => supersede_list rest dis_op'
      | None => None
      end
  end.

Definition disasm (fuel : nat) (Bitstream : list Z) (Read addr : Z) : M Z :=
  let* w := get in
  let* tagfile_read :=
    match Tagfile (dis_opts w) with
    | Some name => call (Read_Tagfile name)
    | None => ret 1
    end in
  if tagfile_read =? 0 then ret 0
  else
    modify (set_dis_op []) ;;
    modify (λ w, set_dis_op (register_all (dis_op w)) w) ;;
    let* w := get in
    when (Show_PseudoCode (dis_opts w)) (supersede_all pseudocode_supersessions) ;;
    modify (λ w, set_dis_op (qsort Comparison (dis_op w)) w) ;;
    if negb (table_check avr_opcodes 0) then
      modify (msg_error table_broken_message) ;;
      ret (-1)
    else
      Disassemble fuel Bitstream Read addr ;;
      ret 0.

(** *** What the driver expects of its collaborators *)

(** A collaborator leaves the registry as it is. *)
Definition keeps_registry (f : world Ext → world Ext) : Prop :=
  ∀ w, dis_op (f w) = dis_op w.

Definition collaborators_keep_registry : Prop :=
  (∀ cb p Pos m, keeps_registry (run_Callback cb p Pos m))
  ∧ (∀ Pos, keeps_registry (Print_JumpCalls Pos))
  ∧ keeps_registry Enumerate_Labels
  ∧ keeps_registry Emit_Used_IO_Registers
  ∧ (∀ Bitstream Pos w,
       dis_op (Tagfile_Process_Data Bitstream Pos w).2 = dis_op w).

(** The tag provider never reports a negative number of bytes. *)
Definition tags_go_forward : Prop :=
  ∀ Bitstream Pos w, 0 ≤ (Tagfile_Process_Data Bitstream Pos w).1.

(** From a state whose registry satisfies [R], the computation [c] does not
    run out of fuel; if it ends normally, the registry is the same and the
    value returned satisfies [Q]. *)
Definition respects {A} (R : list Disasm_opcode → Prop) (c : M A)
    (Q : list Disasm_opcode → A → Prop) : Prop :=
  ∀ w, R (dis_op w) →
       match c w with
       | Done (a, w') => dis_op w' = dis_op w ∧ Q (dis_op w) a
       | Undefined => True
       | OutOfFuel => False
       end.

End Driver.

(** * Stand-alone environments

    Two sorts that keep the contract of [qsort], and collaborators that do
    nothing but record the callback that ran.  They instantiate the
    environment where a statement is evaluated on concrete input. *)

Fixpoint insert_by {A} (compar : A → A → Z) (x : A) (l : list A) : list A :=
  match l with
  | [] => [x]
  | y :: l' => if compar x y <=? 0 then x :: l else y :: insert_by compar x l'
  end.

(** Insertion sort: elements that compare equal keep their order. *)
Definition insertion_sort {A} (compar : A → A → Z) (l : list A) : list A :=
  foldr (insert_by compar) [] l.

(** The same sort run on the reversed array: elements that compare equal
    come out in reverse order. *)
Definition reversing_sort {A} (compar : A → A → Z) (l : list A) : list A :=
  insertion_sort compar (reverse l).

Lemma Comparison_le a b :
  Comparison a b ≤ 0
  ↔ Get_Specifity (Opcode_String b) ≤ Get_Specifity (Opcode_String a).
Proof.
  unfold Comparison. cbv zeta.
  destruct (Z.ltb_spec (Get_Specifity (Opcode_String a))
                       (Get_Specifity (Opcode_String b))).
  - lia.
  - destruct (Z.eqb_spec (Get_Specifity (Opcode_String b))
                         (Get_Specifity (Opcode_String a))); lia.
Qed.

Lemma insert_by_Permutation {A} (compar : A → A → Z) x l :
  Permutation (x :: l) (insert_by compar x l).
Proof.
  induction l as [|y l IH]; simpl; [reflexivity|].
  destruct (compar x y <=? 0); [reflexivity|].
  rewrite perm_swap. by constructor.
Qed.

Lemma insertion_sort_Permutation {A} (compar : A → A → Z) l :
  Permutation l (insertion_sort compar l).
Proof.
  induction l as [|x l IH]; simpl; [reflexivity|].
  rewrite <- insert_by_Permutation. by constructor.
Qed.

Lemma insert_by_ascending x l :
  ascending Comparison l → ascending Comparison (insert_by Comparison x l).
Proof.
  unfold ascending. induction 1 as [|y l Hl IH Hy]; simpl.
  - repeat constructor.
  - destruct (Z.leb_spec (Comparison x y) 0) as [Hxy|Hxy].
    + constructor; [by constructor|]. constructor; [exact Hxy|].
      eapply Forall_impl; [exact Hy|]. intros z Hz. simpl in Hz.
      rewrite Comparison_le in *. lia.
    + constructor; [exact IH|].
      rewrite <- insert_by_Permutation. constructor; [|exact Hy].
      rewrite Comparison_le. apply Z.lt_gt in Hxy.
      assert (¬ Comparison x y ≤ 0) as Hn by lia.
      rewrite Comparison_le in Hn. lia.
Qed.

Lemma insertion_sort_ascending l :
  ascending Comparison (insertion_sort Comparison l).
Proof.
  induction l as [|x l IH]; simpl; [constructor|].
  by apply insert_by_ascending.
Qed.

Lemma reversing_sort_Permutation l :
  Permutation l (reversing_sort Comparison l).
Proof.
  unfold reversing_sort. rewrite <- insertion_sort_Permutation.
  symmetry. apply reverse_Permutation.
Qed.

Lemma reversing_sort_ascending l :
  ascending Comparison (reversing_sort Comparison l).
Proof. apply insertion_sort_ascending. Qed.

(** Numbering of the mnemonics by order of registration, and a table of
    [rows] rows whose row [i] carries the identity [i]. *)
Fixpoint position_of (m : AVR_opcode) (l : list AVR_opcode) (i : Z) : Z :=
  match l with
  | [] => i
  | x :: rest => if decide (x = m) then i else position_of m rest (i + 1)
  end.

Definition registration_order (m : AVR_opcode) : Z :=
  position_of m (snd <$> base_registrations) 0.

Definition plain_table (rows : Z) : list opcode_row :=
  (λ i, {| row_mnemo := i; row_opcode := "op"; clocks_e := "1" |}) <$> seqZ 0 rows.

(** A callback that writes its own name as the code text. *)
Definition naming_Callback (name : string) (p : list Z) (Pos : Z)
    (m : AVR_opcode) (w : world unit) : world unit :=
  {| dis_op := dis_op w; dis_regs := dis_regs w; dis_opts := dis_opts w;
     dis_code := name; dis_comment := dis_comment w;
     dis_after_code := dis_after_code w;
     stdout := stdout w; stderr := stderr w; ext := ext w |}.

Definition report_error (s : string) (w : world unit) : world unit :=
  {| dis_op := dis_op w; dis_regs := dis_regs w; dis_opts := dis_opts w;
     dis_code := dis_code w; dis_comment := dis_comment w;
     dis_after_code := dis_after_code w;
     stdout := stdout w; stderr := stderr w ++ [s]; ext := ext w |}.

Definition stand_alone
    (sort : (Disasm_opcode → Disasm_opcode → Z) → list Disasm_opcode → list Disasm_opcode)
    (sort_permutation : ∀ l, Permutation l (sort Comparison l))
    (sort_ascending : ∀ l, ascending Comparison (sort Comparison l))
    (table : list opcode_row) : Environment :=
  {| Ext := unit;
     avr_opcodes := table;
     opcode_id := registration_order;
     CODESTYLE_AVRGCC := 1;
     qsort := sort;
     qsort_permutation := sort_permutation;
     qsort_ascending := sort_ascending;
     Read_Tagfile := λ _ w, (1, w);
     Tagfile_Process_Data := λ _ _ w, (0, w);
     Enumerate_Labels := λ w, w;
     Emit_Used_IO_Registers := λ w, w;
     Print_JumpCalls := λ _ w, w;
     run_Callback := naming_Callback;
     msg_error := report_error |}.

(** [qsort] keeps equal elements in order; the table has one row per
    registered mnemonic. *)
Definition plain_env : Environment :=
  stand_alone insertion_sort (insertion_sort_Permutation Comparison) insertion_sort_ascending
    (plain_table 131).

(** [qsort] reverses equal elements. *)
Definition reversing_env : Environment :=
  stand_alone reversing_sort reversing_sort_Permutation reversing_sort_ascending
    (plain_table 131).

(** The table has rows for mnemonics that [disasm] never registers, as the
    comment at the head of [disasm] says of the real table. *)
Definition long_table_env : Environment :=
  stand_alone insertion_sort (insertion_sort_Permutation Comparison) insertion_sort_ascending
    (plain_table 159).

(** The second row of the table carries the identity 0. *)
Definition broken_table_env : Environment :=
  stand_alone insertion_sort (insertion_sort_Permutation Comparison) insertion_sort_ascending
    (plain_table 1 ++ plain_table 130).

(** The plain environment with a tag provider that marks the first four
    bytes of the image as data. *)
Definition tagged_env : Environment :=
  {| Ext := unit;
     avr_opcodes := plain_table 131;
     opcode_id := registration_order;
     CODESTYLE_AVRGCC := 1;
     qsort := insertion_sort;
     qsort_permutation := insertion_sort_Permutation Comparison;
     qsort_ascending := insertion_sort_ascending;
     Read_Tagfile := λ _ w, (1, w);
     Tagfile_Process_Data := λ _ Pos w, (if Pos =? 0 then 4 else 0, w);
     Enumerate_Labels := λ w, w;
     Emit_Used_IO_Registers := λ w, w;
     Print_JumpCalls := λ _ w, w;
     run_Callback := naming_Callback;
     msg_error := report_error |}.

Definition plain_options : Disasm_options :=
  {| Pass := 0; Process_Labels := false; Show_PseudoCode := false;
     CodeStyle := 0; Show_Addresses := true; Show_Cycles := false;
     Show_Opcodes := true; Show_Comments := false; Tagfile := None |}.

Definition initial_world : world unit :=
  {| dis_op := []; dis_regs := replicate 256 0; dis_opts := plain_options;
     dis_code := EmptyString; dis_comment := EmptyString;
     dis_after_code := EmptyString; stdout := []; stderr := []; ext := tt |}.

(** * Facts about the matcher *)

(** ** Pattern positions *)

Lemma Get_Bitmask_Length_loop_spec Bitmask Length :
  Get_Bitmask_Length_loop Bitmask Length
  = Length + Z.of_nat (length (significant Bitmask)).
Proof.
  revert Length. induction Bitmask as [|c rest IH]; intros Length; simpl.
  - lia.
  - destruct (c =? " ")%char; simpl; rewrite IH; simpl; lia.
Qed.

Lemma Get_Bitmask_Length_spec Bitmask :
  Get_Bitmask_Length Bitmask = Z.of_nat (length (significant Bitmask)).
Proof. unfold Get_Bitmask_Length. rewrite Get_Bitmask_Length_loop_spec. lia. Qed.

Lemma Get_From_Bitmask_loop_spec Bitmask Cnt GetBit :
  Cnt ≤ GetBit →
  Get_From_Bitmask_loop Bitmask Cnt GetBit
  = nth (Z.to_nat (GetBit - Cnt)) (significant Bitmask) "?"%char.
Proof.
  revert Cnt. induction Bitmask as [|c rest IH]; intros Cnt Hle; simpl.
  - destruct (Z.to_nat (GetBit - Cnt)); reflexivity.
  - destruct (c =? " ")%char; simpl.
    + apply IH. lia.
    + destruct (Z.eqb_spec Cnt GetBit) as [->|Hne].
      * rewrite Z.sub_diag. reflexivity.
      * rewrite IH by lia.
        replace (Z.to_nat (GetBit - Cnt)) with (S (Z.to_nat (GetBit - (Cnt + 1)))) by lia.
        reflexivity.
Qed.

Lemma code_char_spec Bitmask i :
  0 ≤ i → code_char Bitmask i = nth (Z.to_nat i) (significant Bitmask) "?"%char.
Proof.
  intros Hi. unfold code_char, Get_From_Bitmask.
  assert (i ÷ 8 * 8 + Z.rem i 8 = i) as Heq.
  { pose proof (Z.quot_rem' i 8). lia. }
  rewrite Heq, Get_From_Bitmask_loop_spec by lia.
  f_equal. lia.
Qed.

Lemma code_char_position Bitmask i c :
  pattern_position Bitmask i = Some c → code_char Bitmask i = c.
Proof.
  unfold pattern_position. destruct (Z.ltb_spec i 0); [discriminate|].
  intros Hc. rewrite code_char_spec by lia.
  apply nth_lookup_Some with (d := "?"%char) in Hc. exact Hc.
Qed.

Lemma pattern_position_Some Bitmask i :
  0 ≤ i < Get_Bitmask_Length Bitmask →
  pattern_position Bitmask i = Some (code_char Bitmask i).
Proof.
  intros Hi. rewrite Get_Bitmask_Length_spec in Hi.
  unfold pattern_position. destruct (Z.ltb_spec i 0); [lia|].
  destruct (lookup_lt_is_Some_2 (significant Bitmask) (Z.to_nat i)) as [c Hc]; [lia|].
  rewrite Hc. f_equal. symmetry. apply code_char_position.
  unfold pattern_position. destruct (Z.ltb_spec i 0); [lia|]. exact Hc.
Qed.

Lemma pattern_position_range Bitmask i c :
  pattern_position Bitmask i = Some c → 0 ≤ i < Get_Bitmask_Length Bitmask.
Proof.
  unfold pattern_position. destruct (Z.ltb_spec i 0); [discriminate|].
  intros Hc. apply lookup_lt_Some in Hc.
  rewrite Get_Bitmask_Length_spec. lia.
Qed.

Example Match_nop :
  fst <$> Match_Opcode "0000 0000 0000 0000" [0; 0] (replicate 256 7) = Some 1.
Proof. vm_compute. reflexivity. Qed.

Example Match_adc :
  (λ r, (r.1, r.2 !! reg_index "d", r.2 !! reg_index "r")) <$>
    Match_Opcode "0001 11rd dddd rrrr" [209; 28] (replicate 256 7)
  = Some (1, Some 13, Some 1).
Proof. vm_compute. reflexivity. Qed.

Lemma land_shiftr_1 b n :
  0 ≤ n → Z.land (Z.shiftr b n) 1 = Z.b2z (Z.testbit b n).
Proof.
  intros Hn. change 1 with (Z.ones 1). rewrite Z.land_ones by lia.
  change (2 ^ 1) with 2. rewrite <- Z.bit0_mod.
  rewrite Z.shiftr_spec by lia. reflexivity.
Qed.

Lemma lxor_1_nonneg x :
  0 ≤ x → Z.lxor x 1 = if Z.even x then x + 1 else x - 1.
Proof.
  intros Hx. destruct x as [|p|p]; [reflexivity| |lia].
  destruct p; reflexivity.
Qed.

Lemma lxor_1_bounds x : 0 ≤ x → 0 ≤ Z.lxor x 1 ≤ x + 1.
Proof.
  intros Hx. rewrite lxor_1_nonneg by lia.
  destruct (Z.even x) eqn:He; [lia|].
  assert (x ≠ 0) by (intros ->; discriminate). lia.
Qed.

Lemma lxor_1_spanned Length i :
  0 ≤ i < Length → 0 ≤ Z.lxor (i / 8) 1 < bytes_spanned Length.
Proof.
  intros Hi. unfold bytes_spanned.
  assert (0 ≤ i / 8) by (apply Z.div_pos; lia).
  rewrite lxor_1_nonneg by lia.
  destruct (Z.even (i / 8)) eqn:He.
  - apply Z.even_spec in He. destruct He as [m Hm].
    assert (16 * m ≤ i) by (pose proof (Z.mul_div_le i 8); lia).
    assert (m + 1 ≤ (Length + 15) / 16) by (apply Z.div_le_lower_bound; lia).
    lia.
  - assert (i / 8 ≠ 0) by (intros E; rewrite E in He; discriminate).
    assert (i / 8 ≤ Length / 8) by (apply Z.div_le_mono; lia).
    pose proof (Z.div_mod Length 8). pose proof (Z.mod_pos_bound Length 8).
    pose proof (Z.div_mod (Length + 15) 16).
    pose proof (Z.mod_pos_bound (Length + 15) 16).
    lia.
Qed.

Lemma stream_bit_Some Bitstream Length i :
  bytes_spanned Length ≤ Z.of_nat (length Bitstream) → 0 ≤ i < Length →
  ∃ v, stream_bit Bitstream i = Some v.
Proof.
  intros Hlen Hi. pose proof (lxor_1_spanned Length i Hi) as Hb.
  unfold stream_bit, read_byte.
  destruct (Z.ltb_spec (Z.lxor (i / 8) 1) 0); [lia|].
  destruct (lookup_lt_is_Some_2 Bitstream (Z.to_nat (Z.lxor (i / 8) 1))) as [b Hb'];
    [lia|].
  rewrite Hb'. eauto.
Qed.

Lemma code_bit_stream_bit Bitstream i v :
  0 ≤ i → stream_bit Bitstream i = Some v →
  read_byte Bitstream (Z.lxor (i ÷ 8) 1) ≠ None ∧ code_bit Bitstream i = Z.b2z v.
Proof.
  intros Hi. unfold stream_bit, code_bit.
  rewrite Z.quot_div_nonneg, Z.rem_mod_nonneg by lia.
  destruct (read_byte Bitstream (Z.lxor (i / 8) 1)) as [b|]; [|discriminate].
  intros [= <-]. split; [discriminate|].
  apply land_shiftr_1. pose proof (Z.mod_pos_bound i 8). lia.
Qed.

(** The loop of [Match_Opcode] computes [scan] over the remaining pairs,
    as long as every byte it needs is inside the buffer. *)
Lemma Match_Opcode_loop_scan Bitmask Bitstream todo : ∀ i regs,
  0 ≤ i →
  (∀ j, i ≤ j < i + Z.of_nat todo → stream_bit Bitstream j ≠ None) →
  Match_Opcode_loop todo i Bitmask Bitstream regs
  = Some (scan (pairs Bitmask Bitstream i todo) regs).
Proof.
  induction todo as [|todo IH]; intros i regs Hi Hbits.
  - reflexivity.
  - unfold pairs. rewrite Nat2Z.inj_succ, seqZ_cons by lia.
    rewrite Z.pred_succ. rewrite fmap_cons.
    change ((λ j, (code_char Bitmask j, code_bit Bitstream j)) <$> seqZ (Z.succ i) (Z.of_nat todo))
      with (pairs Bitmask Bitstream (Z.succ i) todo).
    destruct (stream_bit Bitstream i) as [v|] eqn:Hv; [|exfalso; apply (Hbits i); [lia|exact Hv]].
    destruct (code_bit_stream_bit _ _ _ Hi Hv) as [Hrd Hcb].
    cbn [Match_Opcode_loop scan].
    fold (code_char Bitmask i).
    unfold code_bit in Hcb |- *.
    destruct (read_byte Bitstream (Z.lxor (i ÷ 8) 1)) as [b|]; [|congruence].
    replace (i + 1) with (Z.succ i) by lia.
    rewrite !IH by (intros; try apply Hbits; lia).
    destruct ((code_char Bitmask i =? "0")%char || (code_char Bitmask i =? "1")%char);
      [|reflexivity].
    destruct (code_char Bitmask i =? "0")%char;
      destruct (Z.land (Z.shiftr b (7 - Z.rem i 8)) 1 =? _); reflexivity.
Qed.

(** *** The scratch after [Clear_Registers] *)

Lemma Clear_Registers_loop_lookup todo : ∀ i regs k,
  Clear_Registers_loop todo i regs !! k
  = if decide (i ≤ k < i + todo ∧ k < length regs)%nat then Some 0 else regs !! k.
Proof.
  induction todo as [|todo IH]; intros i regs k; simpl.
  - case_decide; [lia|reflexivity].
  - rewrite IH, length_insert.
    destruct (decide (i = k)) as [->|Hne].
    + destruct (decide (k < length regs)%nat) as [Hlt|Hge].
      * rewrite list_lookup_insert_eq by lia. repeat case_decide; try lia; reflexivity.
      * rewrite list_insert_ge by lia. repeat case_decide; try lia; reflexivity.
    + rewrite list_lookup_insert_ne by lia. repeat case_decide; try lia; reflexivity.
Qed.

Lemma Clear_Registers_zero regs :
  length regs = 256%nat → Clear_Registers regs = replicate 256 0.
Proof.
  intros Hlen. apply list_eq. intros k. unfold Clear_Registers.
  rewrite Clear_Registers_loop_lookup, Hlen.
  case_decide as Hk.
  - symmetry. apply lookup_replicate_2. lia.
  - rewrite !lookup_ge_None_2; [reflexivity| |lia].
    rewrite length_replicate. lia.
Qed.

(** *** What [scan] returns and what it leaves in the scratch *)

Lemma scan_result ps : ∀ regs, (scan ps regs).1 = 0 ∨ (scan ps regs).1 = 1.
Proof.
  induction ps as [|[c b] ps IH]; intros regs; simpl; [by right|].
  repeat match goal with |- context [if ?x then _ else _] => destruct x end;
    simpl; auto.
Qed.

Lemma scan_match_iff ps : ∀ regs,
  (scan ps regs).1 = 1 ↔ Forall pair_agrees ps.
Proof.
  induction ps as [|[c b] ps IH]; intros regs; simpl.
  - split; [constructor|reflexivity].
  - rewrite Forall_cons. unfold pair_agrees at 1. simpl.
    destruct (Ascii.eqb_spec c "0") as [->|H0]; simpl.
    + destruct (Z.eqb_spec b 1) as [->|Hb]; simpl.
      * split; [discriminate|]. intros [[H _] _]. by destruct H.
      * rewrite IH. intuition congruence.
    + destruct (Ascii.eqb_spec c "1") as [->|H1]; simpl.
      * destruct (Z.eqb_spec b 0) as [->|Hb]; simpl.
        -- split; [discriminate|]. intros [[_ H] _]. by destruct H.
        -- rewrite IH. intuition congruence.
      * rewrite IH. intuition congruence.
Qed.

Lemma scan_cell ps : ∀ regs k,
  (scan ps regs).1 = 1 →
  (scan ps regs).2 !! k = shift_all (cell_bits k ps) <$> regs !! k.
Proof.
  induction ps as [|[c b] ps IH]; intros regs k; simpl.
  - intros _. by destruct (regs !! k).
  - unfold cell_bits. rewrite filter_cons.
    destruct (decide (to_cell k (c, b))) as [[Hl Hk]|Hn]; simpl in *.
    + unfold is_literal in Hl. rewrite Hl. intros Hm.
      change (shift_all (b :: cell_bits k ps)) with
        (λ v, shift_all (cell_bits k ps) (shift_in b v)).
      rewrite IH by exact Hm. unfold store_bit. subst k.
      rewrite list_lookup_alter_eq.
      destruct (regs !! reg_index c); reflexivity.
    + fold (cell_bits k ps).
      destruct ((c =? "0")%char || (c =? "1")%char) eqn:Hlit.
      * destruct (c =? "0")%char.
        -- destruct (b =? 1); [discriminate|]. apply IH.
        -- destruct (b =? 0); [discriminate|]. apply IH.
      * intros Hm. rewrite IH by exact Hm. unfold store_bit.
        rewrite list_lookup_alter_ne; [reflexivity|].
        intros Hk. apply Hn. split; [exact Hlit|exact Hk].
Qed.

Lemma to_int_small z : - 2 ^ 31 ≤ z < 2 ^ 31 → to_int z = z.
Proof.
  intros Hz. unfold to_int. rewrite Z.mod_small; lia.
Qed.

Lemma lor_even_bit m (b : bool) : Z.lor (2 * m) (Z.b2z b) = 2 * m + Z.b2z b.
Proof.
  assert (Z.land (2 * m) (Z.b2z b) = 0) as Hland.
  { destruct b; simpl Z.b2z; [|apply Z.land_0_r].
    change 1 with (Z.ones 1). rewrite Z.land_ones by lia.
    change (2 ^ 1) with 2. rewrite Z.mul_comm. apply Z.mod_mul. lia. }
  rewrite <- Z.lxor_lor by exact Hland.
  symmetry. apply Z.add_nocarry_lxor. exact Hland.
Qed.

Lemma to_int_double_even x : ∃ m, to_int (2 * to_int x) = 2 * m.
Proof.
  unfold to_int.
  exists (((2 * ((x + 2 ^ 31) mod 2 ^ 32 - 2 ^ 31) + 2 ^ 31) mod 2 ^ 32 - 2 ^ 31) / 2).
  match goal with |- ?a = 2 * (?a / 2) => 
    assert (a mod 2 = 0) as Hm; [|pose proof (Z.div_mod a 2); lia] end.
  rewrite <- Zminus_mod_idemp_l.
  rewrite Z.mod_mod_divide by (exists (2 ^ 31); reflexivity).
  rewrite Zminus_mod_idemp_l.
  replace (2 * ((x + 2 ^ 31) mod 2 ^ 32 - 2 ^ 31) + 2 ^ 31 - 2 ^ 31)
    with (((x + 2 ^ 31) mod 2 ^ 32 - 2 ^ 31) * 2) by lia.
  apply Z.mod_mul. lia.
Qed.

Lemma shift_in_to_int x (b : bool) :
  shift_in (Z.b2z b) (to_int x) = to_int (2 * x + Z.b2z b).
Proof.
  unfold shift_in. rewrite Z.shiftl_mul_pow2 by lia. change (2 ^ 1) with 2.
  rewrite (Z.mul_comm _ 2).
  destruct (to_int_double_even x) as [m Hm]. rewrite Hm, lor_even_bit, <- Hm.
  unfold to_int in *.
  assert (0 ≤ Z.b2z b ≤ 1) by (destruct b; simpl; lia).
  pose proof (Z.div_mod (x + 2 ^ 31) (2 ^ 32)).
  pose proof (Z.mod_pos_bound (x + 2 ^ 31) (2 ^ 32)).
  set (A := (x + 2 ^ 31) mod 2 ^ 32) in *.
  set (q := (x + 2 ^ 31) / 2 ^ 32) in *.
  pose proof (Z.mod_pos_bound (2 * (A - 2 ^ 31) + 2 ^ 31) (2 ^ 32)).
  assert ((2 * x + Z.b2z b + 2 ^ 31) mod 2 ^ 32
          = (2 * (A - 2 ^ 31) + 2 ^ 31) mod 2 ^ 32 + Z.b2z b); [|lia].
  symmetry. apply Z.mod_unique with (q := 2 * q + (2 * (A - 2 ^ 31) + 2 ^ 31) / 2 ^ 32).
  - left. lia.
  - pose proof (Z.div_mod (2 * (A - 2 ^ 31) + 2 ^ 31) (2 ^ 32)). lia.
Qed.

Lemma shift_all_assemble bs : ∀ x,
  shift_all (Z.b2z <$> bs) (to_int x) = to_int (assemble_from bs x).
Proof.
  induction bs as [|b bs IH]; intros x; simpl; [reflexivity|].
  unfold shift_all in *. simpl. rewrite shift_in_to_int. apply IH.
Qed.

Lemma assemble_from_bounds bs : ∀ x,
  0 ≤ x → 0 ≤ assemble_from bs x < (x + 1) * 2 ^ Z.of_nat (length bs).
Proof.
  induction bs as [|b bs IH]; intros x Hx.
  - simpl. lia.
  - change (assemble_from (b :: bs) x) with (assemble_from bs (2 * x + Z.b2z b)).
    assert (0 ≤ Z.b2z b ≤ 1) by (destruct b; simpl; lia).
    specialize (IH (2 * x + Z.b2z b) ltac:(lia)).
    rewrite length_cons, Nat2Z.inj_succ, Z.pow_succ_r by lia.
    assert (0 < 2 ^ Z.of_nat (length bs)) by (apply Z.pow_pos_nonneg; lia).
    nia.
Qed.

Lemma to_int_assemble bs :
  (length bs ≤ 31)%nat → to_int (assemble bs) = assemble bs.
Proof.
  intros Hlen. apply to_int_small. unfold assemble.
  pose proof (assemble_from_bounds bs 0 ltac:(lia)) as Hb.
  assert (2 ^ Z.of_nat (length bs) ≤ 2 ^ 31) by (apply Z.pow_le_mono_r; lia).
  lia.
Qed.

(** *** From the loop to the specification's reading *)

Lemma reg_index_inj c1 c2 : reg_index c1 = reg_index c2 → c1 = c2.
Proof.
  unfold reg_index. intros H.
  rewrite <- (ascii_nat_embedding c1), <- (ascii_nat_embedding c2).
  by rewrite H.
Qed.

Lemma Get_Bitmask_Length_nonneg Bitmask : 0 ≤ Get_Bitmask_Length Bitmask.
Proof. rewrite Get_Bitmask_Length_spec. lia. Qed.

Lemma Match_Opcode_loop_readable Bitmask Bitstream todo : ∀ i regs regs',
  0 ≤ i →
  Match_Opcode_loop todo i Bitmask Bitstream regs = Some (1, regs') →
  ∀ j, i ≤ j < i + Z.of_nat todo → stream_bit Bitstream j ≠ None.
Proof.
  induction todo as [|todo IH]; intros i regs regs' Hi Hrun j Hj; [lia|].
  cbn [Match_Opcode_loop] in Hrun.
  destruct (read_byte Bitstream (Z.lxor (i ÷ 8) 1)) as [b|] eqn:Hrd; [|discriminate].
  destruct (decide (j = i)) as [->|Hne].
  - unfold stream_bit. rewrite <- Z.quot_div_nonneg by lia. by rewrite Hrd.
  - assert (i + 1 ≤ j < i + 1 + Z.of_nat todo) as Hj' by lia.
    repeat match type of Hrun with
           | (if ?x then _ else _) = _ => destruct x
           end; try discriminate; eapply IH; try exact Hrun; lia.
Qed.

Lemma stream_bits_readable Bitmask Bitstream :
  bytes_spanned (Get_Bitmask_Length Bitmask) ≤ Z.of_nat (length Bitstream) →
  ∀ j, 0 ≤ j < Get_Bitmask_Length Bitmask → stream_bit Bitstream j ≠ None.
Proof.
  intros Hlen j Hj.
  destruct (stream_bit_Some _ _ _ Hlen Hj) as [v Hv]. by rewrite Hv.
Qed.

Lemma Match_Opcode_scan Bitmask Bitstream regs :
  (∀ j, 0 ≤ j < Get_Bitmask_Length Bitmask → stream_bit Bitstream j ≠ None) →
  Match_Opcode Bitmask Bitstream regs
  = Some (scan (all_pairs Bitmask Bitstream) (Clear_Registers regs)).
Proof.
  intros Hrd. unfold Match_Opcode, all_pairs.
  apply Match_Opcode_loop_scan; [lia|].
  intros j Hj. apply Hrd. pose proof (Get_Bitmask_Length_nonneg Bitmask). lia.
Qed.

Lemma Match_Opcode_success_scan Bitmask Bitstream regs regs' :
  Match_Opcode Bitmask Bitstream regs = Some (1, regs') →
  scan (all_pairs Bitmask Bitstream) (Clear_Registers regs) = (1, regs').
Proof.
  intros Hrun.
  assert (∀ j, 0 ≤ j < Get_Bitmask_Length Bitmask → stream_bit Bitstream j ≠ None)
    as Hrd.
  { intros j Hj. unfold Match_Opcode in Hrun.
    eapply Match_Opcode_loop_readable; [|exact Hrun|]; lia. }
  rewrite (Match_Opcode_scan _ _ _ Hrd) in Hrun. congruence.
Qed.

Lemma all_pairs_agree_iff Bitmask Bitstream :
  (∀ j, 0 ≤ j < Get_Bitmask_Length Bitmask → stream_bit Bitstream j ≠ None) →
  Forall pair_agrees (all_pairs Bitmask Bitstream) ↔ literals_agree Bitmask Bitstream.
Proof.
  intros Hrd. unfold all_pairs, pairs.
  pose proof (Get_Bitmask_Length_nonneg Bitmask) as HL.
  rewrite Forall_fmap, Forall_seqZ, Z2Nat.id by lia.
  unfold literals_agree, pair_agrees, compose; simpl. split.
  - intros H i c v Hc Hv.
    pose proof (pattern_position_range _ _ _ Hc) as Hi.
    destruct (H i ltac:(lia)) as [H0 H1].
    rewrite (code_char_position _ _ _ Hc) in H0, H1.
    destruct (stream_bit Bitstream i) as [w|] eqn:Hw; [|by destruct (Hrd i Hi)].
    destruct (code_bit_stream_bit _ _ _ (proj1 Hi) Hw) as [_ Hcb].
    rewrite Hcb in H0, H1. unfold literal_value in Hv. f_equal.
    destruct (Ascii.eqb_spec c "0") as [->|]; [injection Hv as <-|].
    { destruct w; [by destruct H0|done]. }
    destruct (Ascii.eqb_spec c "1") as [->|]; [injection Hv as <-|done].
    destruct w; [done|by destruct H1].
  - intros H i Hi.
    assert (0 ≤ i < Get_Bitmask_Length Bitmask) as Hi' by lia.
    pose proof (pattern_position_Some _ _ Hi') as Hc.
    split; intros Hlit; rewrite Hlit in Hc.
    + pose proof (H i _ false Hc eq_refl) as Hb.
      destruct (code_bit_stream_bit _ _ _ (proj1 Hi') Hb) as [_ ->]. done.
    + pose proof (H i _ true Hc eq_refl) as Hb.
      destruct (code_bit_stream_bit _ _ _ (proj1 Hi') Hb) as [_ ->]. done.
Qed.

Lemma cell_bits_field Bitmask Bitstream c js :
  is_literal c = false →
  Forall (λ j, 0 ≤ j < Get_Bitmask_Length Bitmask
               ∧ stream_bit Bitstream j ≠ None) js →
  cell_bits (reg_index c)
    ((λ j, (code_char Bitmask j, code_bit Bitstream j)) <$> js)
  = Z.b2z <$> ((λ i, default false (stream_bit Bitstream i)) <$>
                 filter (λ i, pattern_position Bitmask i = Some c) js).
Proof.
  intros Hc. induction 1 as [|j js [Hj Hrd] _ IH]; [reflexivity|].
  unfold cell_bits in *. rewrite fmap_cons, !filter_cons.
  pose proof (pattern_position_Some _ _ Hj) as Hpos.
  destruct (decide (pattern_position Bitmask j = Some c)) as [Hy|Hn].
  - assert (code_char Bitmask j = c) as Hcc by congruence.
    rewrite decide_True by (split; simpl; congruence).
    rewrite !fmap_cons, IH. f_equal. simpl.
    destruct (stream_bit Bitstream j) as [w|] eqn:Hw; [|done].
    by destruct (code_bit_stream_bit _ _ _ (proj1 Hj) Hw) as [_ ->].
  - rewrite decide_False; [exact IH|].
    intros [_ Hk]. simpl in Hk. apply reg_index_inj in Hk. congruence.
Qed.

Lemma filter_none {A} (P : A → Prop) `{!∀ x, Decision (P x)} (l : list A) :
  (∀ x, ¬ P x) → filter P l = [].
Proof.
  intros HP. induction l as [|x l IH]; [reflexivity|].
  rewrite filter_cons_False by apply HP. exact IH.
Qed.

(** After a successful match every cell of the scratch holds the bits of its
    field character, assembled in pattern order and wrapped to [int]; the
    cells of the literal characters stay zero. *)
Lemma Match_Opcode_cell Bitmask Bitstream regs regs' c :
  length regs = 256%nat →
  Match_Opcode Bitmask Bitstream regs = Some (1, regs') →
  regs' !! reg_index c
  = Some (if is_literal c then 0
          else to_int (assemble (field_bits Bitmask Bitstream c))).
Proof.
  intros Hlen Hrun.
  assert (∀ j, 0 ≤ j < Get_Bitmask_Length Bitmask → stream_bit Bitstream j ≠ None)
    as Hrd.
  { intros j Hj. unfold Match_Opcode in Hrun.
    eapply Match_Opcode_loop_readable; [|exact Hrun|]; lia. }
  apply Match_Opcode_success_scan in Hrun.
  rewrite Clear_Registers_zero in Hrun by exact Hlen.
  pose proof (scan_cell (all_pairs Bitmask Bitstream) (replicate 256 0)
                (reg_index c)) as Hcell.
  rewrite Hrun in Hcell. cbn [fst snd] in Hcell. rewrite Hcell by reflexivity.
  rewrite lookup_replicate_2
    by (unfold reg_index; pose proof (nat_ascii_bounded c); lia).
  cbn [fmap option_fmap option_map]. f_equal.
  destruct (is_literal c) eqn:Hlit.
  - unfold cell_bits. rewrite filter_none; [reflexivity|].
    intros p [Hp Hk]. apply reg_index_inj in Hk. congruence.
  - unfold all_pairs, pairs. rewrite cell_bits_field; [|exact Hlit|].
    + rewrite Z2Nat.id by apply Get_Bitmask_Length_nonneg.
      pose proof (shift_all_assemble (field_bits Bitmask Bitstream c) 0) as Hs.
      rewrite (to_int_small 0) in Hs by lia. exact Hs.
    + apply Forall_seqZ. intros j Hj.
      pose proof (Get_Bitmask_Length_nonneg Bitmask).
      split; [lia|apply Hrd; lia].
Qed.

(** With every byte in the buffer, the match is decided by the literals. *)
Lemma Match_Opcode_readable Bitmask Bitstream regs :
  bytes_spanned (Get_Bitmask_Length Bitmask) ≤ Z.of_nat (length Bitstream) →
  ∃ r regs',
    Match_Opcode Bitmask Bitstream regs = Some (r, regs') ∧
    (r = 0 ∨ r = 1) ∧
    (r = 1 ↔ literals_agree Bitmask Bitstream).
Proof.
  intros Hlen. pose proof (stream_bits_readable _ _ Hlen) as Hrd.
  rewrite (Match_Opcode_scan _ _ _ Hrd).
  destruct (scan (all_pairs Bitmask Bitstream) (Clear_Registers regs))
    as [r regs'] eqn:Hscan.
  exists r, regs'. split; [reflexivity|].
  pose proof (scan_result (all_pairs Bitmask Bitstream) (Clear_Registers regs)) as Hr.
  pose proof (scan_match_iff (all_pairs Bitmask Bitstream) (Clear_Registers regs)) as Hm.
  rewrite Hscan in Hr, Hm. simpl in Hr, Hm.
  split; [exact Hr|]. rewrite Hm. by apply all_pairs_agree_iff.
Qed.

(** * Facts about the registry and the resolver *)

Lemma Get_Specifity_loop_spec Opcode : ∀ Specifity,
  Get_Specifity_loop Opcode Specifity
  = Specifity + Z.of_nat (literal_count Opcode).
Proof.
  induction Opcode as [|c rest IH]; intros n; simpl; [lia|].
  unfold is_literal. destruct ((c =? "0")%char || (c =? "1")%char);
    rewrite IH; lia.
Qed.

Lemma Comparison_specificity a b :
  Comparison a b ≤ 0 ↔ specificity b ≤ specificity a.
Proof. apply Comparison_le. Qed.

Lemma StronglySorted_lookup_lt {A} (R : A → A → Prop) l :
  StronglySorted R l →
  ∀ i j a b, l !! i = Some a → l !! j = Some b → (i < j)%nat → R a b.
Proof.
  induction 1 as [|x l Hl IH Hx]; intros i j a b Hi Hj Hlt; [done|].
  destruct j as [|j]; [lia|]. simpl in Hj.
  destruct i as [|i]; simpl in Hi.
  - injection Hi as <-. rewrite Forall_forall in Hx. apply Hx.
    by eapply list_elem_of_lookup_2.
  - eapply IH; eauto. lia.
Qed.

(** In a registry in ascending order of [Comparison], an entry in front has at
    least the specificity of an entry behind it. *)
Lemma ascending_specificity dis_op i j a b :
  ascending Comparison dis_op →
  dis_op !! i = Some a → dis_op !! j = Some b → (i ≤ j)%nat →
  specificity b ≤ specificity a.
Proof.
  intros Hs Hi Hj Hle. destruct (decide (i = j)) as [->|Hne].
  - assert (a = b) as -> by congruence. lia.
  - apply Comparison_specificity.
    eapply (StronglySorted_lookup_lt _ _ Hs i j); eauto. lia.
Qed.

Lemma at_index_nat {A} (l : list A) (n : nat) : at_index l (Z.of_nat n) = l !! n.
Proof.
  unfold at_index. destruct (Z.ltb_spec (Z.of_nat n) 0); [lia|].
  by rewrite Nat2Z.id.
Qed.

Lemma at_index_Some {A} (l : list A) i x :
  at_index l i = Some x → 0 ≤ i ∧ l !! Z.to_nat i = Some x.
Proof.
  unfold at_index. destruct (Z.ltb_spec i 0); [discriminate|]. auto.
Qed.


Lemma literal_count_significant Opcode :
  literal_count Opcode
  = length (filter (λ c, is_literal c = true) (significant Opcode)).
Proof.
  induction Opcode as [|c rest IH]; simpl; [reflexivity|].
  destruct (Ascii.eqb_spec c " ") as [->|Hc]; [exact IH|].
  rewrite filter_cons. destruct (is_literal c) eqn:Hl.
  - rewrite decide_True by done. simpl. by rewrite IH.
  - rewrite decide_False by done. exact IH.
Qed.

Lemma all_literal_specificity Opcode :
  all_literal Opcode → Get_Specifity Opcode = Get_Bitmask_Length Opcode.
Proof.
  intros Hall. unfold Get_Specifity.
  rewrite Get_Specifity_loop_spec, Get_Bitmask_Length_spec, literal_count_significant.
  assert (filter (λ c, is_literal c = true) (significant Opcode)
          = significant Opcode) as ->; [|lia].
  induction Hall as [|c l Hc _ IH]; [reflexivity|].
  rewrite filter_cons_True by exact Hc. by rewrite IH.
Qed.

Lemma has_field_specificity Opcode :
  has_field Opcode → Get_Specifity Opcode < Get_Bitmask_Length Opcode.
Proof.
  intros Hex. unfold Get_Specifity.
  rewrite Get_Specifity_loop_spec, Get_Bitmask_Length_spec, literal_count_significant.
  apply Exists_exists in Hex as (c & Hin & Hc).
  assert (¬ is_literal c = true) as Hn by congruence.
  pose proof (length_filter_lt (λ c, is_literal c = true) _ c Hin Hn). lia.
Qed.

Lemma all_literal_no_field Opcode : all_literal Opcode → has_field Opcode → False.
Proof.
  intros Hall Hex. apply Exists_exists in Hex as (c & Hin & Hc).
  unfold all_literal in Hall. rewrite Forall_forall in Hall.
  specialize (Hall c Hin). congruence.
Qed.

(** In the registry that [disasm] builds, the patterns of literals only have
    specificity 16 and every other pattern has less. *)
Lemma registered_patterns_shape :
  Forall (λ Opcode, (all_literal Opcode → Get_Specifity Opcode = 16)
                    ∧ (has_field Opcode → Get_Specifity Opcode < 16))
         (Opcode_String <$> register_all []).
Proof.
  apply Forall_forall. intros Opcode Hin.
  assert (Forall (λ Opcode,
                    (Get_Specifity Opcode = Get_Bitmask_Length Opcode
                     → Get_Specifity Opcode = 16)
                    ∧ Get_Specifity Opcode ≤ 16
                    ∧ (Get_Specifity Opcode = 16 → Get_Bitmask_Length Opcode = 16))
                 (Opcode_String <$> register_all [])) as Hshape.
  { apply (bool_decide_unpack _). vm_compute. exact I. }
  rewrite Forall_forall in Hshape.
  destruct (Hshape Opcode Hin) as (Hlit & Hle & Hlen).
  split.
  - intros Hall. pose proof (all_literal_specificity _ Hall). lia.
  - intros Hf. pose proof (has_field_specificity _ Hf). lia.
Qed.


(** * Facts about [Compare_Opcode] *)

Lemma compare_valid_test c :
  negb (c =? "x")%char && negb (c =? "1")%char && negb (c =? "0")%char = true
  ↔ ¬ compare_valid c.
Proof.
  unfold compare_valid. rewrite !elem_of_cons, elem_of_nil.
  destruct (Ascii.eqb_spec c "x"), (Ascii.eqb_spec c "1"), (Ascii.eqb_spec c "0");
    simpl; intuition congruence.
Qed.

(** Up to the first character it refuses, [Compare_Opcode] runs as on the
    prefix before that character; where the prefix alone would match, the
    character is reported and the result is 0. *)
Lemma Compare_Opcode_loop_invalid Bitstream c rest pre : ∀ i,
  Forall compare_valid (list_ascii_of_string pre) →
  ¬ compare_valid c →
  Compare_Opcode_loop (pre +:+ String c rest) i Bitstream
  = match Compare_Opcode_loop pre i Bitstream with
    | Some (1, _) => Some (0, [invalid_bitmask_message])
    | other => other
    end.
Proof.
  intros i Hpre Hc. revert i.
  induction pre as [|a pre IH]; intros i; simpl.
  - apply compare_valid_test in Hc. rewrite Hc. reflexivity.
  - simpl in Hpre. apply Forall_cons in Hpre as [Ha Hpre].
    destruct (negb (a =? "x")%char && negb (a =? "1")%char && negb (a =? "0")%char)
      eqn:Htest.
    { apply compare_valid_test in Htest. by destruct Htest. }
    destruct (a =? "x")%char; [by apply IH|].
    destruct (read_byte Bitstream (i ÷ 8)) as [b|]; [|reflexivity].
    destruct ((a =? "1")%char && (Z.land (b ≫ (7 - Z.rem i 8)) 1 =? 1));
      [by apply IH|].
    destruct ((a =? "0")%char && (Z.land (b ≫ (7 - Z.rem i 8)) 1 =? 0));
      [by apply IH|reflexivity].
Qed.

(** * Facts about the driver *)

Lemma Match_Opcode_loop_outcome Bitmask Bitstream todo : ∀ i regs regs2,
  fst <$> Match_Opcode_loop todo i Bitmask Bitstream regs
  = fst <$> Match_Opcode_loop todo i Bitmask Bitstream regs2.
Proof.
  induction todo as [|todo IH]; intros i regs regs2; [reflexivity|].
  cbn [Match_Opcode_loop].
  destruct (read_byte Bitstream (Z.lxor (i ÷ 8) 1)) as [b|]; [|reflexivity].
  repeat match goal with
         | |- context [if ?x then _ else _] => destruct x
         end; try reflexivity; apply IH.
Qed.

Lemma Match_Opcode_outcome Bitmask Bitstream regs :
  fst <$> Match_Opcode Bitmask Bitstream regs = match_outcome Bitmask Bitstream.
Proof. apply Match_Opcode_loop_outcome. Qed.

(** When no entry matches and one of them reads outside the buffer, the
    resolver reads outside the buffer, wherever that entry stands. *)
Lemma Get_Next_Opcode_loop_undefined Bitstream dis_op : ∀ i regs,
  Forall (λ op, match_outcome (Opcode_String op) Bitstream ≠ Some 1) dis_op →
  Exists (λ op, match_outcome (Opcode_String op) Bitstream = None) dis_op →
  Get_Next_Opcode_loop dis_op i Bitstream regs = None.
Proof.
  induction dis_op as [|op rest IH]; intros i regs Hall Hex.
  - inversion Hex.
  - apply Forall_cons in Hall as [Hop Hrest]. simpl.
    pose proof (Match_Opcode_outcome (Opcode_String op) Bitstream regs) as Hout.
    destruct (Match_Opcode (Opcode_String op) Bitstream regs) as [[r regs']|];
      [|reflexivity].
    simpl in Hout. destruct (Z.eqb_spec r 1) as [->|Hr].
    + by rewrite <- Hout in Hop.
    + apply IH; [exact Hrest|].
      apply Exists_cons in Hex as [Hnone|Hex]; [congruence|exact Hex].
Qed.

Lemma table_check_spec rows : ∀ i,
  table_check rows i = true
  ↔ ∀ k row, rows !! k = Some row → row_mnemo row = i + Z.of_nat k.
Proof.
  induction rows as [|row rows IH]; intros i; simpl.
  - split; [intros _ k row' Hk; by destruct k|reflexivity].
  - destruct (Z.eqb_spec (row_mnemo row) i) as [Heq|Hne]; simpl.
    + rewrite IH. split.
      * intros H [|k] row' Hk; simpl in Hk.
        -- injection Hk as <-. lia.
        -- rewrite (H k row' Hk). lia.
      * intros H k row' Hk. rewrite (H (S k) row' Hk). lia.
    + split; [discriminate|]. intros H. destruct Hne.
      rewrite (H 0%nat row eq_refl). lia.
Qed.

(** The first word of a [jmp] is matched by the pattern of [jmp] whatever
    the two bytes behind it are. *)
Lemma jmp_matches_any_second_word x y :
  match_outcome "1001 010k  kkkk 110k    kkkk kkkk  kkkk kkkk" [12; 148; x; y]
  = Some 1.
Proof.
  unfold match_outcome.
  destruct (Match_Opcode_readable "1001 010k  kkkk 110k    kkkk kkkk  kkkk kkkk"
              [12; 148; x; y] []) as (r & regs' & -> & _ & Hiff).
  { vm_compute. discriminate. }
  simpl. f_equal. apply Hiff. intros i c v Hc Hv.
  pose proof (pattern_position_range _ _ _ Hc) as Hi.
  change (Get_Bitmask_Length "1001 010k  kkkk 110k    kkkk kkkk  kkkk kkkk")
    with 32 in Hi.
  assert (i ∈ seqZ 0 32) as Hin by (apply elem_of_seqZ; lia).
  clear Hi. vm_compute seqZ in Hin.
  repeat (apply elem_of_cons in Hin as [->|Hin];
          [vm_compute in Hc; injection Hc as <-;
           vm_compute in Hv; try discriminate Hv; injection Hv as <-;
           reflexivity|]).
  by apply elem_of_nil in Hin.
Qed.

Section DriverFacts.

Context `{Env : Environment}.

Lemma Supersede_Opcode_done Callback' mnemo' (w : world Ext) dis_op' :
  Supersede_Opcode_loop Callback' mnemo' (dis_op w) = Some dis_op' →
  Supersede_Opcode Callback' mnemo' w = Done (tt, set_dis_op dis_op' w).
Proof.
  intros H. unfold Supersede_Opcode, bind, get. rewrite H. reflexivity.
Qed.

Lemma supersede_all_done l : ∀ (w : world Ext) dis_op',
  supersede_list l (dis_op w) = Some dis_op' →
  supersede_all l w = Done (tt, set_dis_op dis_op' w).
Proof.
  induction l as [|r rest IH]; intros w dis_op' H; simpl in *.
  - injection H as <-. unfold ret. by destruct w.
  - destruct (Supersede_Opcode_loop r.1 r.2 (dis_op w)) as [ops|] eqn:Hs;
      [|discriminate].
    unfold bind. rewrite (Supersede_Opcode_done _ _ _ _ Hs).
    rewrite (IH (set_dis_op ops w) dis_op' H). reflexivity.
Qed.

(** The registry as [disasm] hands it to [qsort]: the registrations, with the
    pseudo-code callbacks put in when that rendering is on.  The patterns
    are the same in both cases. *)
Lemma registry_before_sort (show_pseudocode : bool) :
  ∃ dis_op',
    (if show_pseudocode
     then supersede_list pseudocode_supersessions (register_all [])
     else Some (register_all [])) = Some dis_op'
    ∧ Opcode_String <$> dis_op' = Opcode_String <$> register_all [].
Proof.
  destruct show_pseudocode.
  - destruct (supersede_list pseudocode_supersessions (register_all []))
      as [dis_op'|] eqn:Hs; [|vm_compute in Hs; discriminate Hs].
    exists dis_op'. split; [reflexivity|].
    vm_compute in Hs. injection Hs as <-. vm_compute. reflexivity.
  - eexists. split; reflexivity.
Qed.

End DriverFacts.

(** A run of the whole driver: a [nop], an [adc] and a word no pattern
    matches, with addresses and raw bytes shown. *)
Example disasm_sample_run :
  ∃ w',
    disasm (Env := plain_env) 3 [0; 0; 209; 28; 255; 255] 6 0 initial_world
    = Done (0, w')
    ∧ String.concat EmptyString (stdout w')
      = "   0:   00 00           nop_Callback" +:+ nl
        +:+ "   2:   d1 1c           adc_Callback" +:+ nl
        +:+ ".word 0xffff    ; Invalid opcode at 0x0004 (4). Disassembler skipped two bytes."
        +:+ nl.
Proof. eexists. split; vm_compute; reflexivity. Qed.

(** * The claims of the specification *)

(** ** The matcher *)

(** C1.  For a pattern whose significant length is a multiple of 8 and a
    stream that holds every byte the pattern spans, [Match_Opcode] returns 0
    or 1, and returns 1 exactly when every pattern position holding ['0'] or
    ['1'] equals the stream bit at byte [(i/8) XOR 1], bit [7 - i % 8].  The
    other positions do not matter: a second stream that carries the same
    bits at the literal positions gets the same result. *)
Theorem Match_Opcode_iff_literals_agree (Bitmask : string) (Bitstream regs : list Z) :
  Get_Bitmask_Length Bitmask mod 8 = 0 →
  bytes_spanned (Get_Bitmask_Length Bitmask) ≤ Z.of_nat (length Bitstream) →
  ∃ r regs',
    Match_Opcode Bitmask Bitstream regs = Some (r, regs') ∧
    (r = 0 ∨ r = 1) ∧
    (r = 1 ↔ literals_agree Bitmask Bitstream) ∧
    ∀ Bitstream2 regs2,
      bytes_spanned (Get_Bitmask_Length Bitmask) ≤ Z.of_nat (length Bitstream2) →
      (∀ i c v, pattern_position Bitmask i = Some c → literal_value c = Some v →
                stream_bit Bitstream2 i = stream_bit Bitstream i) →
      ∃ regs2', Match_Opcode Bitmask Bitstream2 regs2 = Some (r, regs2').
Proof.
  intros _ Hlen.
  destruct (Match_Opcode_readable Bitmask Bitstream regs Hlen)
    as (r & regs' & Hrun & Hr & Hiff).
  exists r, regs'. repeat split; try tauto.
  intros Bitstream2 regs2 Hlen2 Hsame.
  destruct (Match_Opcode_readable Bitmask Bitstream2 regs2 Hlen2)
    as (r2 & regs2' & Hrun2 & Hr2 & Hiff2).
  exists regs2'. rewrite Hrun2. do 2 f_equal.
  assert (literals_agree Bitmask Bitstream2 ↔ literals_agree Bitmask Bitstream) as Heq.
  { unfold literals_agree.
    split; intros H i c v Hc Hv; specialize (H i c v Hc Hv);
      specialize (Hsame i c v Hc Hv); congruence. }
  destruct Hr as [->| ->], Hr2 as [->| ->]; try reflexivity.
  - exfalso. assert (0 = 1) as [=]. apply Hiff. apply Heq. apply Hiff2. reflexivity.
  - exfalso. assert (0 = 1) as [=]. apply Hiff2. apply Heq. apply Hiff. reflexivity.
Qed.

Lemma Match_Opcode_iff_literals_agree_witness :
  ∃ r regs',
    Match_Opcode "0001 11rd dddd rrrr" [209; 28] [] = Some (r, regs') ∧
    (r = 0 ∨ r = 1) ∧
    (r = 1 ↔ literals_agree "0001 11rd dddd rrrr" [209; 28]) ∧
    ∀ Bitstream2 regs2,
      bytes_spanned (Get_Bitmask_Length "0001 11rd dddd rrrr")
        ≤ Z.of_nat (length Bitstream2) →
      (∀ i c v, pattern_position "0001 11rd dddd rrrr" i = Some c →
                literal_value c = Some v →
                stream_bit Bitstream2 i = stream_bit [209; 28] i) →
      ∃ regs2', Match_Opcode "0001 11rd dddd rrrr" Bitstream2 regs2 = Some (r, regs2').
Proof.
  apply (Match_Opcode_iff_literals_agree "0001 11rd dddd rrrr" [209; 28] []).
  - reflexivity.
  - vm_compute. discriminate.
Defined.

(** C6, the scenario as the specification words it: against the pattern
    ["0001 11rd dddd rrrr"] the field [d] would take 5 bits and the field [r]
    4 bits.  The pattern holds [r] five times. *)
Lemma adc_fields_not_5_and_4 :
  ¬ (length (field_positions "0001 11rd dddd rrrr" "d") = 5%nat
     ∧ length (field_positions "0001 11rd dddd rrrr" "r") = 4%nat).
Proof. vm_compute. intros [_ H]. discriminate H. Qed.

(** C6, amended.  Every match attempt starts from an all-zero scratch,
    whatever the previous attempt left.  After a successful match the cell of
    every field character holds the stream bits of its positions, taken in
    pattern order, each one shifted in as the new least-significant bit (the
    cell is an [int]; a field of at most 31 bits is held exactly), and the
    cells of ['0'] and ['1'] are zero.  Pattern ["0001 11rd dddd rrrr"]
    against the bytes [0b11010001, 0b00011100] matches; [d] and [r] take 5
    bits each, at positions 7..11 and 6, 12..15, and get 13 and 1. *)
Theorem Match_Opcode_fields :
  (∀ (Bitmask : string) (Bitstream regs regs' : list Z),
     length regs = 256%nat →
     Match_Opcode Bitmask Bitstream regs = Some (1, regs') →
     Match_Opcode Bitmask Bitstream (replicate 256 0) = Some (1, regs') ∧
     ∀ c,
       regs' !! reg_index c
       = Some (if is_literal c then 0
               else to_int (assemble (field_bits Bitmask Bitstream c)))
       ∧ ((length (field_positions Bitmask c) ≤ 31)%nat →
          to_int (assemble (field_bits Bitmask Bitstream c))
          = assemble (field_bits Bitmask Bitstream c)))
  ∧ (∃ regs',
       Match_Opcode "0001 11rd dddd rrrr" [209; 28] (replicate 256 0)
       = Some (1, regs')
       ∧ field_positions "0001 11rd dddd rrrr" "d" = [7; 8; 9; 10; 11]
       ∧ field_positions "0001 11rd dddd rrrr" "r" = [6; 12; 13; 14; 15]
       ∧ regs' !! reg_index "d" = Some 13
       ∧ regs' !! reg_index "r" = Some 1).
Proof.
  split.
  - intros Bitmask Bitstream regs regs' Hlen Hrun. split.
    + unfold Match_Opcode in *.
      rewrite Clear_Registers_zero by apply length_replicate.
      rewrite <- (Clear_Registers_zero regs) by exact Hlen. exact Hrun.
    + intros c. split.
      * by apply Match_Opcode_cell with (regs := regs).
      * intros Hbits. apply to_int_assemble.
        unfold field_bits. by rewrite length_fmap.
  - eexists. split; [vm_compute; reflexivity|].
    vm_compute. repeat split; reflexivity.
Qed.

Lemma Match_Opcode_fields_witness :
  ∃ regs',
    Match_Opcode "1001 010k kkkk 110k kkkk kkkk kkkk kkkk" [12; 148; 52; 18]
      (replicate 256 0) = Some (1, regs')
    ∧ regs' !! reg_index "k"
      = Some (to_int (assemble (field_bits
           "1001 010k kkkk 110k kkkk kkkk kkkk kkkk" [12; 148; 52; 18] "k"))).
Proof.
  destruct (Match_Opcode "1001 010k kkkk 110k kkkk kkkk kkkk kkkk"
              [12; 148; 52; 18] (replicate 256 7)) as [[r regs']|] eqn:Hrun;
    [|vm_compute in Hrun; discriminate Hrun].
  assert (r = 1) as ->.
  { vm_compute in Hrun. by injection Hrun as <- _. }
  destruct (proj1 Match_Opcode_fields _ _ (replicate 256 7) regs'
              (length_replicate 256 7) Hrun) as [Hzero Hcells].
  exists regs'. split; [exact Hzero|].
  exact (proj1 (Hcells "k"%char)).
Defined.

(** C10.  The wildcard ['x'] is no exception in [Match_Opcode]: after a
    successful match the cell of ['x'] holds the stream bits found at the
    ['x'] positions, assembled in pattern order, by the same rule that
    fills the cell of any other field character. *)
Theorem Match_Opcode_wildcard (Bitmask : string) (Bitstream regs regs' : list Z) :
  length regs = 256%nat →
  Match_Opcode Bitmask Bitstream regs = Some (1, regs') →
  regs' !! reg_index "x"
  = Some (to_int (assemble (field_bits Bitmask Bitstream "x")))
  ∧ ((length (field_positions Bitmask "x") ≤ 31)%nat →
     regs' !! reg_index "x" = Some (assemble (field_bits Bitmask Bitstream "x")))
  ∧ ∀ c, is_literal c = false →
         regs' !! reg_index c
         = Some (to_int (assemble (field_bits Bitmask Bitstream c))).
Proof.
  intros Hlen Hrun.
  assert (∀ c, is_literal c = false →
               regs' !! reg_index c
               = Some (to_int (assemble (field_bits Bitmask Bitstream c)))) as Hall.
  { intros c Hc. rewrite (Match_Opcode_cell _ _ _ _ c Hlen Hrun). by rewrite Hc. }
  split; [by apply Hall|]. split; [|exact Hall].
  intros Hbits. rewrite Hall by reflexivity. f_equal.
  apply to_int_assemble. unfold field_bits. by rewrite length_fmap.
Qed.

Lemma Match_Opcode_wildcard_witness :
  ∃ regs',
    Match_Opcode "1001 xxxx 0000 1111" [15; 154] (replicate 256 0) = Some (1, regs')
    ∧ regs' !! reg_index "x" = Some 10.
Proof.
  destruct (Match_Opcode "1001 xxxx 0000 1111" [15; 154] (replicate 256 0))
    as [[r regs']|] eqn:Hrun; [|vm_compute in Hrun; discriminate Hrun].
  assert (r = 1) as ->.
  { vm_compute in Hrun. by injection Hrun as <- _. }
  exists regs'. split; [reflexivity|].
  destruct (Match_Opcode_wildcard _ _ _ _ (length_replicate 256 0) Hrun)
    as (_ & Hx & _).
  rewrite Hx; [vm_compute; reflexivity|vm_compute; lia].
Defined.

(** ** The registry and the resolver *)



(** C3.  [Get_Specifity] returns the number of ['0'] and ['1'] characters
    of the pattern.  After [qsort] with [Comparison] the registry holds the
    same entries in order of non-increasing specificity.  Hence an entry
    whose pattern has literals only stands before any entry whose pattern has
    a field character and is not longer; in the registry that [disasm]
    builds this holds for every pair of such entries. *)
Theorem Get_Specifity_orders_registry `{Env : Environment} :
  (∀ Opcode, Get_Specifity Opcode = Z.of_nat (literal_count Opcode))
  ∧ (∀ dis_op,
       Permutation dis_op (qsort Comparison dis_op)
       ∧ ∀ i j a b,
           qsort Comparison dis_op !! i = Some a →
           qsort Comparison dis_op !! j = Some b →
           (i ≤ j)%nat → specificity b ≤ specificity a)
  ∧ (∀ dis_op i j a b,
       qsort Comparison dis_op !! i = Some a →
       qsort Comparison dis_op !! j = Some b →
       all_literal (Opcode_String a) → has_field (Opcode_String b) →
       Get_Bitmask_Length (Opcode_String b) ≤ Get_Bitmask_Length (Opcode_String a) →
       (i < j)%nat)
  ∧ (∀ dis_op i j a b,
       Opcode_String <$> dis_op = Opcode_String <$> register_all [] →
       qsort Comparison dis_op !! i = Some a →
       qsort Comparison dis_op !! j = Some b →
       all_literal (Opcode_String a) → has_field (Opcode_String b) →
       (i < j)%nat).
Proof.
  assert (∀ dis_op i j a b,
            qsort Comparison dis_op !! i = Some a →
            qsort Comparison dis_op !! j = Some b →
            all_literal (Opcode_String a) → has_field (Opcode_String b) →
            specificity b < specificity a → (i < j)%nat) as Hbefore.
  { intros dis_op i j a b Hi Hj Ha Hb Hlt.
    destruct (decide (i < j)%nat) as [|Hge]; [done|].
    pose proof (ascending_specificity _ _ _ _ _ (qsort_ascending dis_op) Hj Hi
                  ltac:(lia)). lia. }
  split; [|split; [|split]].
  - intros Opcode. unfold Get_Specifity. rewrite Get_Specifity_loop_spec. lia.
  - intros dis_op. split; [apply qsort_permutation|].
    intros i j a b Hi Hj Hle.
    by eapply ascending_specificity; [apply qsort_ascending| | |].
  - intros dis_op i j a b Hi Hj Ha Hb Hlen.
    apply (Hbefore dis_op i j a b Hi Hj Ha Hb). unfold specificity.
    pose proof (all_literal_specificity _ Ha).
    pose proof (has_field_specificity _ Hb). lia.
  - intros dis_op i j a b Hreg Hi Hj Ha Hb.
    apply (Hbefore dis_op i j a b Hi Hj Ha Hb). unfold specificity.
    pose proof registered_patterns_shape as Hshape.
    rewrite <- Hreg, Forall_fmap, (qsort_permutation dis_op), Forall_forall in Hshape.
    apply list_elem_of_lookup_2 in Hi, Hj.
    destruct (Hshape a Hi) as [H16 _]. destruct (Hshape b Hj) as [_ Hless].
    simpl in *. rewrite (H16 Ha). by apply Hless.
Qed.

Lemma Get_Specifity_orders_registry_witness :
  ∃ a b,
    insertion_sort Comparison (register_all []) !! 15%nat = Some a
    ∧ insertion_sort Comparison (register_all []) !! 102%nat = Some b
    ∧ mnemo a = OPCODE_nop ∧ mnemo b = OPCODE_adc
    ∧ (15 < 102)%nat.
Proof.
  destruct (insertion_sort Comparison (register_all []) !! 15%nat) as [a|] eqn:Ha;
    [|vm_compute in Ha; discriminate Ha].
  destruct (insertion_sort Comparison (register_all []) !! 102%nat) as [b|] eqn:Hb;
    [|vm_compute in Hb; discriminate Hb].
  exists a, b. split; [reflexivity|]. split; [reflexivity|].
  assert (mnemo a = OPCODE_nop ∧ all_literal (Opcode_String a)) as [Hma Hla].
  { vm_compute in Ha. injection Ha as <-. split; [reflexivity|].
    apply (bool_decide_unpack _). vm_compute. exact I. }
  assert (mnemo b = OPCODE_adc ∧ has_field (Opcode_String b)) as [Hmb Hfb].
  { vm_compute in Hb. injection Hb as <-. split; [reflexivity|].
    apply (bool_decide_unpack _). vm_compute. exact I. }
  split; [exact Hma|]. split; [exact Hmb|].
  exact (proj2 (proj2 (proj2 (Get_Specifity_orders_registry (Env := plain_env))))
           (register_all []) 15%nat 102%nat a b eq_refl Ha Hb Hla Hfb).
Defined.

(** C4, as the specification words it: whatever sort the C library brings,
    the entries of one specificity keep their order of registration.  With a
    sort that honours the contract of [qsort] but reverses equal elements,
    the entries of specificity 9 (among them [brcs] and [brlo], which share
    one pattern) come out in another order. *)
Lemma qsort_may_reorder_equal_specificity :
  ¬ (∀ (Env : Environment) (dis_op : list Disasm_opcode) (s : Z),
       of_specificity s (qsort Comparison dis_op) = of_specificity s dis_op).
Proof.
  intros H. specialize (H reversing_env (register_all []) 9).
  vm_compute in H. discriminate H.
Qed.

(** C4, amended.  After the sort the entries of each specificity are the
    registered entries of that specificity, each as often as it was
    registered; [Comparison] returns 0 for them and [qsort] leaves their
    order open. *)
Theorem qsort_keeps_specificity_classes `{Env : Environment}
    (dis_op : list Disasm_opcode) (s : Z) :
  Permutation (of_specificity s dis_op) (of_specificity s (qsort Comparison dis_op))
  ∧ ∀ a b, a ∈ of_specificity s dis_op → b ∈ of_specificity s dis_op →
           Comparison a b = 0.
Proof.
  split.
  - unfold of_specificity. by rewrite <- (qsort_permutation dis_op).
  - intros a b Ha Hb. unfold of_specificity in *.
    apply list_elem_of_filter in Ha as [Ha _], Hb as [Hb _].
    unfold Comparison, specificity in *. rewrite Ha, Hb.
    rewrite Z.ltb_irrefl, Z.eqb_refl. reflexivity.
Qed.

(** ** Invalid pattern characters *)

(** C5, as the specification words it: a pattern holding a character other
    than ['0'], ['1'], ['x'] and the space is refused by the matcher.  The
    pattern of [adc] holds [r] and [d], and matches. *)
Lemma Match_Opcode_accepts_field_characters :
  ¬ (∀ (Bitmask : string) (Bitstream regs : list Z),
       Exists (λ c, ¬ spec_valid c) (list_ascii_of_string Bitmask) →
       ∃ regs', Match_Opcode Bitmask Bitstream regs = Some (0, regs')).
Proof.
  intros H.
  destruct (H "0001 11rd  dddd rrrr" [209; 28] (replicate 256 0)) as [regs' Hrun].
  - apply (bool_decide_unpack _). vm_compute. exact I.
  - vm_compute in Hrun. discriminate Hrun.
Qed.

(** C5, amended.  [Match_Opcode] refuses no character: apart from the space,
    whatever is not ['0'] or ['1'] stands for a field bit, and the pattern
    matches as soon as its literals agree.  It is [Compare_Opcode], which the
    driver does not call, that refuses every character other than ['x'],
    ['1'] and ['0'] (the space included): it then returns 0, after writing
    "Invalid Bitmask!" to [stderr] when the characters before would have
    matched, and it never returns 1 for such a pattern. *)
Theorem Compare_Opcode_rejects_invalid_character (pre rest : string) (c : ascii)
    (Bitstream : list Z) :
  Forall compare_valid (list_ascii_of_string pre) →
  ¬ compare_valid c →
  Compare_Opcode Bitstream (pre +:+ String c rest)
  = match Compare_Opcode Bitstream pre with
    | Some (1, _) => Some (0, [invalid_bitmask_message])
    | other => other
    end
  ∧ (∀ log, Compare_Opcode Bitstream (pre +:+ String c rest) ≠ Some (1, log))
  ∧ (∀ regs,
       bytes_spanned (Get_Bitmask_Length (pre +:+ String c rest))
         ≤ Z.of_nat (length Bitstream) →
       literals_agree (pre +:+ String c rest) Bitstream →
       ∃ regs', Match_Opcode (pre +:+ String c rest) Bitstream regs
                = Some (1, regs')).
Proof.
  intros Hpre Hc.
  pose proof (Compare_Opcode_loop_invalid Bitstream c rest pre 0 Hpre Hc) as Heq.
  fold (Compare_Opcode Bitstream (pre +:+ String c rest)) in Heq.
  fold (Compare_Opcode Bitstream pre) in Heq.
  split; [exact Heq|]. split.
  - intros log. rewrite Heq.
    destruct (Compare_Opcode Bitstream pre) as [[r l]|]; [|discriminate].
    destruct r as [|[]|]; discriminate.
  - intros regs Hlen Hagree.
    destruct (Match_Opcode_readable _ _ regs Hlen) as (r & regs' & Hrun & _ & Hiff).
    exists regs'. rewrite Hrun. apply Hiff in Hagree. by subst r.
Qed.

Lemma Compare_Opcode_rejects_invalid_character_witness :
  Compare_Opcode [16] "0001r" = Some (0, [invalid_bitmask_message])
  ∧ Compare_Opcode [16] "0001 " = Some (0, [invalid_bitmask_message]).
Proof.
  split.
  - exact (proj1 (Compare_Opcode_rejects_invalid_character
                    "0001" EmptyString "r" [16]
                    ltac:(apply (bool_decide_unpack _); vm_compute; exact I)
                    ltac:(apply (bool_decide_unpack _); vm_compute; exact I))).
  - exact (proj1 (Compare_Opcode_rejects_invalid_character
                    "0001" EmptyString " " [16]
                    ltac:(apply (bool_decide_unpack _); vm_compute; exact I)
                    ltac:(apply (bool_decide_unpack _); vm_compute; exact I))).
Defined.

(** ** The driver *)

(** C7.  In the second loop, at a position where the tag provider reports
    no data and [Get_Next_Opcode] returns -1, the driver prints the
    placeholder line, which carries the two bytes of the word, high byte
    first, and the position in hexadecimal and in decimal under the words
    "Invalid opcode", and moves on by exactly 2 bytes: the iteration ends
    normally, and the loop goes on from [Pos + 2]. *)
Theorem pass2_invalid_opcode `{Env : Environment} (fuel : nat)
    (Bitstream : list Z) (Read Pos : Z) (w w1 : world Ext)
    (p regs' : list Z) (hi lo : Z) :
  Tagfile_Process_Data Bitstream Pos w = (0, w1) →
  ptr_add Bitstream Pos = Some p →
  Get_Next_Opcode (dis_op w1) p (dis_regs w1) = Some (-1, regs') →
  read_byte Bitstream (Pos + 1) = Some hi →
  read_byte Bitstream Pos = Some lo →
  Pos < Read →
  pass2_body Bitstream Pos w
  = Done (Pos + 2,
          write_stdout (invalid_opcode_line hi lo Pos) (set_dis_regs regs' w1))
  ∧ pass2_loop (S fuel) Bitstream Read Pos w
    = pass2_loop fuel Bitstream Read (Pos + 2)
        (write_stdout (invalid_opcode_line hi lo Pos) (set_dis_regs regs' w1))
  ∧ invalid_opcode_line hi lo Pos
    = ".word 0x" +:+ pad_left "0" 2 (fmt_x (to_uchar hi))
      +:+ pad_left "0" 2 (fmt_x (to_uchar lo))
      +:+ "    ; Invalid opcode at 0x" +:+ pad_left "0" 4 (fmt_x Pos)
      +:+ " (" +:+ fmt_d Pos +:+ "). Disassembler skipped two bytes." +:+ nl.
Proof.
  intros Htag Hp Hnone Hhi Hlo Hlt.
  assert (pass2_body Bitstream Pos w
          = Done (Pos + 2,
                  write_stdout (invalid_opcode_line hi lo Pos)
                    (set_dis_regs regs' w1))) as Hbody.
  { unfold pass2_body, bind, call. rewrite Htag. cbn [negb Z.eqb].
    unfold resolve, bind, defined, get, modify, ret. rewrite Hp, Hnone.
    cbn [fst snd negb Z.eqb].
    unfold emit_invalid, bind, defined, printf, modify, ret.
    rewrite Hhi, Hlo. reflexivity. }
  split; [exact Hbody|]. split; [|reflexivity].
  cbn [pass2_loop]. apply Z.ltb_lt in Hlt. rewrite Hlt.
  unfold bind at 1. rewrite Hbody. reflexivity.
Qed.

Lemma pass2_invalid_opcode_witness :
  ∃ w',
    pass2_body (Env := plain_env) [255; 255] 0
      (set_dis_op (Env := plain_env)
         (insertion_sort Comparison (register_all [])) initial_world)
    = Done (2, w')
    ∧ stdout w'
      = [".word 0xffff    ; Invalid opcode at 0x0000 (0). Disassembler skipped two bytes."
         +:+ nl].
Proof.
  set (w := set_dis_op (Env := plain_env)
              (insertion_sort Comparison (register_all [])) initial_world).
  destruct (Get_Next_Opcode (dis_op w) [255; 255] (dis_regs w))
    as [[i regs']|] eqn:Hrun; [|vm_compute in Hrun; discriminate Hrun].
  assert (i = -1) as ->.
  { vm_compute in Hrun. by injection Hrun as <- _. }
  destruct (pass2_invalid_opcode (Env := plain_env) 0 [255; 255] 2 0 w w
              [255; 255] regs' 255 255) as (Hbody & _ & _);
    [reflexivity|reflexivity|exact Hrun|reflexivity|reflexivity|reflexivity|].
  eexists. split; [exact Hbody|]. reflexivity.
Defined.

(** C8.  The buffer holds the two bytes [0x0c 0x94], the first word of a
    [jmp].  Whatever the order in which [qsort] left the entries of equal
    specificity, and whether or not the pseudo-code callbacks were put in,
    the resolver goes on to the second word of the pattern of [jmp] and reads
    the byte at index 3 of the 2-byte buffer: the iteration of the second
    loop does not reach the placeholder.  Whatever the two bytes found
    behind the buffer are, the pattern of [jmp] matches them. *)
Theorem pass2_reads_past_buffer_end `{Env : Environment} (w w1 : world Ext) :
  Tagfile_Process_Data [12; 148] 0 w = (0, w1) →
  Permutation (Opcode_String <$> register_all []) (Opcode_String <$> dis_op w1) →
  pass2_body [12; 148] 0 w = Undefined
  ∧ Get_Next_Opcode (dis_op w1) [12; 148] (dis_regs w1) = None
  ∧ match_outcome "1001 010k  kkkk 110k    kkkk kkkk  kkkk kkkk" [12; 148] = None
  ∧ ∀ x y,
      match_outcome "1001 010k  kkkk 110k    kkkk kkkk  kkkk kkkk" [12; 148; x; y]
      = Some 1.
Proof.
  intros Htag Hperm.
  assert (Get_Next_Opcode (dis_op w1) [12; 148] (dis_regs w1) = None) as Hnone.
  { apply Get_Next_Opcode_loop_undefined.
    - assert (Forall (λ Opcode, match_outcome Opcode [12; 148] ≠ Some 1)
                (Opcode_String <$> register_all [])) as Hall.
      { apply (bool_decide_unpack _). vm_compute. exact I. }
      rewrite Hperm, Forall_fmap in Hall. exact Hall.
    - assert (Exists (λ Opcode, match_outcome Opcode [12; 148] = None)
                (Opcode_String <$> register_all [])) as Hex.
      { apply (bool_decide_unpack _). vm_compute. exact I. }
      rewrite Hperm in Hex. apply Exists_exists in Hex as (s & Hin & Hs).
      apply list_elem_of_fmap in Hin as (op & -> & Hin).
      apply Exists_exists. by exists op. }
  split; [|split; [exact Hnone|split;
    [vm_compute; reflexivity|apply jmp_matches_any_second_word]]].
  unfold pass2_body, bind, call. rewrite Htag. cbn [negb Z.eqb].
  unfold resolve, bind, defined, get. cbn [ptr_add].
  change (ptr_add [12; 148] 0) with (Some [12; 148]). cbv beta iota.
  rewrite Hnone. reflexivity.
Qed.

Lemma pass2_reads_past_buffer_end_witness :
  pass2_body (Env := reversing_env) [12; 148] 0
    (set_dis_op (Env := reversing_env)
       (reversing_sort Comparison (register_all [])) initial_world)
  = Undefined.
Proof.
  apply (pass2_reads_past_buffer_end (Env := reversing_env) _ _ eq_refl).
  apply fmap_Permutation, reversing_sort_Permutation.
Defined.

(** The whole run on that buffer, with either sort. *)
Example disasm_short_buffer :
  ∀ fuel,
    disasm (Env := plain_env) (S fuel) [12; 148] 2 0 initial_world = Undefined
    ∧ disasm (Env := reversing_env) (S fuel) [12; 148] 2 0 initial_world
      = Undefined.
Proof. intros fuel. split; vm_compute; reflexivity. Qed.

(** C9, as the specification words it: the run goes on to decode only if the
    mnemonic identities of the registry are a permutation of those of the
    table.  With a table that is in order but has rows for mnemonics that
    [disasm] never registers, the run decodes and returns 0. *)
Lemma disasm_runs_with_unregistered_rows :
  ¬ (∀ (Env : Environment) (fuel : nat) (Bitstream : list Z) (Read addr : Z)
       (w w' : world Ext) (r : Z),
       disasm fuel Bitstream Read addr w = Done (r, w') →
       ¬ Permutation ((λ op, opcode_id (mnemo op)) <$> dis_op w')
                     (row_mnemo <$> avr_opcodes) →
       r = -1).
Proof.
  intros H.
  destruct (disasm (Env := long_table_env) 1 [0; 0] 2 0 initial_world)
    as [[r w']| |] eqn:Hrun;
    [|vm_compute in Hrun; discriminate Hrun..].
  assert (r = 0 ∧ length (dis_op w') = 131%nat) as [-> Hlen].
  { vm_compute in Hrun. injection Hrun as <- <-. split; reflexivity. }
  specialize (H long_table_env 1%nat [0; 0] 2 0 initial_world w' 0 Hrun).
  assert (0 = -1) as [=]. apply H.
  intros Hperm. apply Permutation_length in Hperm.
  rewrite !length_fmap, Hlen in Hperm. vm_compute in Hperm. discriminate Hperm.
Qed.

(** C9, amended.  The run can end before decoding in two ways.  If a tag file
    is configured and reading it fails, [disasm] returns 0 at once.
    Otherwise it builds and sorts the registry and then checks the table
    [avr_opcodes], once: each row [i] has to carry the mnemonic identity [i]
    (the registry plays no part in the check).  If a row fails, [disasm]
    hands the message to [msg_error] and returns -1; nothing was written by
    the core.  If the table is in order, [disasm] is [Disassemble] followed by
    [return 0]: nothing else ends the run. *)
Theorem disasm_checks_table_once `{Env : Environment} (fuel : nat)
    (Bitstream : list Z) (Read addr : Z) (w : world Ext) :
  (table_check avr_opcodes 0 = true
   ↔ ∀ i row, avr_opcodes !! i = Some row → row_mnemo row = Z.of_nat i)
  ∧ ((after_tagfile w).1 = 0 →
     disasm fuel Bitstream Read addr w = Done (0, (after_tagfile w).2))
  ∧ ((after_tagfile w).1 ≠ 0 →
     ∃ dis_op',
       Opcode_String <$> dis_op' = Opcode_String <$> register_all []
       ∧ disasm fuel Bitstream Read addr w
         = if table_check avr_opcodes 0 then
             match Disassemble fuel Bitstream Read addr
                     (set_dis_op (qsort Comparison dis_op') (after_tagfile w).2)
             with
             | Done (_, w') => Done (0, w')
             | Undefined => Undefined
             | OutOfFuel => OutOfFuel
             end
           else
             Done (-1, msg_error table_broken_message
                         (set_dis_op (qsort Comparison dis_op')
                            (after_tagfile w).2))).
Proof.
  split; [|split].
  - rewrite table_check_spec. split; intros H i row Hi; rewrite (H i row Hi); lia.
  - intros Hr. unfold disasm, bind, get, after_tagfile in *.
    destruct (Tagfile (dis_opts w)) as [name|]; [|discriminate Hr].
    unfold call. destruct (Read_Tagfile name w) as [r1 w1]. simpl in Hr.
    subst r1. reflexivity.
  - intros Hr.
    destruct (registry_before_sort (Show_PseudoCode (dis_opts (after_tagfile w).2)))
      as (dis_op' & Hreg & Hpat).
    exists dis_op'. split; [exact Hpat|].
    assert (∀ r1 w1, after_tagfile w = (r1, w1) →
              disasm fuel Bitstream Read addr w
              = bind (ret r1) (λ tagfile_read,
                  if tagfile_read =? 0 then ret 0
                  else
                    bind (modify (set_dis_op [])) (λ _,
                    bind (modify (λ w, set_dis_op (register_all (dis_op w)) w)) (λ _,
                    bind get (λ w,
                    bind (when (Show_PseudoCode (dis_opts w))
                            (supersede_all pseudocode_supersessions)) (λ _,
                    bind (modify (λ w, set_dis_op (qsort Comparison (dis_op w)) w)) (λ _,
                    if negb (table_check avr_opcodes 0) then
                      bind (modify (msg_error table_broken_message)) (λ _, ret (-1))
                    else
                      bind (Disassemble fuel Bitstream Read addr) (λ _, ret 0))))))) w1)
      as Hunfold.
    { intros r1 w1 Htf. unfold disasm, after_tagfile in *. unfold bind at 1, get at 1.
      unfold bind at 1.
      destruct (Tagfile (dis_opts w)) as [name|].
      - unfold call. rewrite Htf. reflexivity.
      - injection Htf as <- <-. reflexivity. }
    destruct (after_tagfile w) as [r1 w1] eqn:Htf. simpl in Hr, Hreg |- *.
    rewrite (Hunfold r1 w1 eq_refl). clear Hunfold.
    unfold bind at 1, ret at 1.
    destruct (Z.eqb_spec r1 0) as [|_]; [done|].
    unfold bind at 1, modify at 1. unfold bind at 1, modify at 1.
    unfold bind at 1, get at 1. unfold bind at 1.
    change (dis_opts (set_dis_op _ (set_dis_op [] w1))) with (dis_opts w1).
    assert (when (Show_PseudoCode (dis_opts w1))
              (supersede_all pseudocode_supersessions)
              (set_dis_op (register_all (dis_op (set_dis_op [] w1)))
                 (set_dis_op [] w1))
            = Done (tt, set_dis_op dis_op' w1)) as ->.
    { unfold when. destruct (Show_PseudoCode (dis_opts w1)).
      - rewrite (supersede_all_done _ _ dis_op'); [reflexivity|exact Hreg].
      - injection Hreg as <-. reflexivity. }
    unfold bind at 1, modify at 1.
    change (set_dis_op (qsort Comparison (dis_op (set_dis_op dis_op' w1)))
              (set_dis_op dis_op' w1))
      with (set_dis_op (qsort Comparison dis_op') w1).
    destruct (table_check avr_opcodes 0); simpl.
    + unfold bind, ret.
      destruct (Disassemble fuel Bitstream Read addr
                  (set_dis_op (qsort Comparison dis_op') w1)) as [[[] w']| |];
        reflexivity.
    + reflexivity.
Qed.

Lemma disasm_checks_table_once_witness :
  ∃ w',
    disasm (Env := broken_table_env) 1 [0; 0] 2 0 initial_world = Done (-1, w')
    ∧ stdout w' = []
    ∧ stderr w' = [table_broken_message].
Proof.
  destruct (proj2 (proj2 (disasm_checks_table_once (Env := broken_table_env)
                            1 [0; 0] 2 0 initial_world)))
    as (dis_op' & _ & Hrun); [discriminate|].
  eexists. split; [exact Hrun|]. split; reflexivity.
Defined.

(** * Further properties of the code *)

(** ** Patterns *)

Lemma significant_no_space Bitmask :
  Forall (λ c, c ≠ " "%char) (significant Bitmask).
Proof.
  induction Bitmask as [|c rest IH]; simpl; [constructor|].
  destruct (Ascii.eqb_spec c " "); [exact IH|by constructor].
Qed.

Lemma Get_From_Bitmask_loop_behind Bitmask : ∀ Cnt GetBit,
  GetBit < Cnt → Get_From_Bitmask_loop Bitmask Cnt GetBit = "?"%char.
Proof.
  induction Bitmask as [|c rest IH]; intros Cnt GetBit Hlt; simpl; [reflexivity|].
  destruct (negb (c =? " ")%char); [|by apply IH].
  destruct (Z.eqb_spec Cnt GetBit); [lia|]. apply IH. lia.
Qed.

(** [Get_From_Bitmask] counts the significant characters only: inside the
    pattern it returns the character at significant position
    [Byte * 8 + Bit], which is never a space; for a position behind the last
    significant character, or a negative one, it returns ['?']. *)
Theorem Get_From_Bitmask_in_and_out_of_range (Bitmask : string) (Byte Bit : Z) :
  (0 ≤ Byte * 8 + Bit < Get_Bitmask_Length Bitmask →
   pattern_position Bitmask (Byte * 8 + Bit)
   = Some (Get_From_Bitmask Bitmask Byte Bit)
   ∧ Get_From_Bitmask Bitmask Byte Bit ≠ " "%char)
  ∧ (Byte * 8 + Bit < 0 ∨ Get_Bitmask_Length Bitmask ≤ Byte * 8 + Bit →
     Get_From_Bitmask Bitmask Byte Bit = "?"%char).
Proof.
  unfold Get_From_Bitmask. cbv zeta. set (GetBit := Byte * 8 + Bit). split.
  - intros Hin. rewrite Get_Bitmask_Length_spec in Hin.
    rewrite Get_From_Bitmask_loop_spec, Z.sub_0_r by lia.
    unfold pattern_position. destruct (Z.ltb_spec GetBit 0); [lia|].
    destruct (lookup_lt_is_Some_2 (significant Bitmask) (Z.to_nat GetBit))
      as [c Hc]; [lia|].
    rewrite (nth_lookup_Some _ _ "?"%char _ Hc). split; [exact Hc|].
    pose proof (significant_no_space Bitmask) as Hns.
    rewrite Forall_forall in Hns. apply Hns. by eapply list_elem_of_lookup_2.
  - intros [Hneg|Hbig].
    + apply Get_From_Bitmask_loop_behind. lia.
    + destruct (Z.ltb_spec GetBit 0);
        [apply Get_From_Bitmask_loop_behind; lia|].
      rewrite Get_Bitmask_Length_spec in Hbig.
      rewrite Get_From_Bitmask_loop_spec, Z.sub_0_r by lia.
      apply nth_overflow. lia.
Qed.

Lemma Match_Opcode_loop_significant B1 B2 Bitstream todo : ∀ i regs,
  significant B1 = significant B2 → 0 ≤ i →
  Match_Opcode_loop todo i B1 Bitstream regs
  = Match_Opcode_loop todo i B2 Bitstream regs.
Proof.
  induction todo as [|todo IH]; intros i regs Hsig Hi; [reflexivity|].
  cbn [Match_Opcode_loop].
  fold (code_char B1 i). fold (code_char B2 i).
  rewrite (code_char_spec B1), (code_char_spec B2), Hsig by lia.
  destruct (read_byte Bitstream (Z.lxor (i ÷ 8) 1)) as [b|]; [|reflexivity].
  rewrite !(IH (i + 1)) by (done || lia). reflexivity.
Qed.

(** Spaces in a pattern are cosmetic: two patterns with the same significant
    characters have the same length and specificity and are matched alike,
    with the same result and the same scratch. *)
Theorem spaces_are_cosmetic (B1 B2 : string) (Bitstream regs : list Z) :
  significant B1 = significant B2 →
  Get_Bitmask_Length B1 = Get_Bitmask_Length B2
  ∧ Get_Specifity B1 = Get_Specifity B2
  ∧ Match_Opcode B1 Bitstream regs = Match_Opcode B2 Bitstream regs.
Proof.
  intros Hsig. split; [|split].
  - by rewrite !Get_Bitmask_Length_spec, Hsig.
  - unfold Get_Specifity.
    by rewrite !Get_Specifity_loop_spec, !literal_count_significant, Hsig.
  - unfold Match_Opcode. rewrite !Get_Bitmask_Length_spec, Hsig.
    by apply Match_Opcode_loop_significant.
Qed.

Lemma spaces_are_cosmetic_witness :
  Match_Opcode "0001 11rd  dddd rrrr" [209; 28] (replicate 256 0)
  = Match_Opcode "000111rddddd rrrr " [209; 28] (replicate 256 0).
Proof.
  apply (spaces_are_cosmetic "0001 11rd  dddd rrrr" "000111rddddd rrrr "
           [209; 28] (replicate 256 0)).
  reflexivity.
Defined.

(** The specificity of a pattern lies between 0 and its significant length,
    and reaches the length exactly for the patterns made of literals only. *)
Theorem Get_Specifity_bounds (Opcode : string) :
  0 ≤ Get_Specifity Opcode ≤ Get_Bitmask_Length Opcode
  ∧ (Get_Specifity Opcode = Get_Bitmask_Length Opcode ↔ all_literal Opcode).
Proof.
  assert (all_literal Opcode ∨ has_field Opcode) as Hcases.
  { unfold all_literal, has_field.
    destruct (decide (Forall (λ c, is_literal c = true) (significant Opcode)))
      as [Hall|Hn]; [by left|right].
    apply not_Forall_Exists in Hn; [|apply _].
    eapply Exists_impl; [exact Hn|]. intros c Hc. simpl in Hc.
    by destruct (is_literal c). }
  assert (0 ≤ Get_Specifity Opcode) as Hnn.
  { unfold Get_Specifity. rewrite Get_Specifity_loop_spec. lia. }
  destruct Hcases as [Hall|Hf].
  - pose proof (all_literal_specificity _ Hall). split; [lia|]. tauto.
  - pose proof (has_field_specificity _ Hf). split; [lia|].
    split; [lia|]. intros Hall. by destruct (all_literal_no_field _ Hall Hf).
Qed.

(** ** The matcher and the resolver *)

(** The first byte [Match_Opcode] reads is [Bitstream[1]].  On a buffer of
    fewer than two bytes every pattern with a significant character makes it
    read outside the buffer, while a pattern without one matches without
    reading anything. *)
Theorem Match_Opcode_short_buffer (Bitmask : string) (Bitstream regs : list Z) :
  (length Bitstream < 2)%nat →
  Match_Opcode Bitmask Bitstream regs
  = if Get_Bitmask_Length Bitmask =? 0 then Some (1, Clear_Registers regs)
    else None.
Proof.
  intros Hlen. unfold Match_Opcode. cbv zeta.
  pose proof (Get_Bitmask_Length_nonneg Bitmask) as Hnn.
  destruct (Z.eqb_spec (Get_Bitmask_Length Bitmask) 0) as [->|Hne];
    [reflexivity|].
  destruct (Z.to_nat (Get_Bitmask_Length Bitmask)) as [|todo] eqn:Htodo; [lia|].
  cbn [Match_Opcode_loop].
  change (Z.lxor (0 ÷ 8) 1) with 1. unfold read_byte.
  change (1 <? 0) with false. cbv iota.
  rewrite lookup_ge_None_2; [reflexivity|]. simpl. lia.
Qed.

Lemma Match_Opcode_short_buffer_witness :
  Match_Opcode "0000 0000 0000 0000" [0] (replicate 256 0) = None
  ∧ ∃ regs', Match_Opcode "   " [0] (replicate 256 7) = Some (1, regs').
Proof.
  split.
  - exact (Match_Opcode_short_buffer "0000 0000 0000 0000" [0] (replicate 256 0)
             ltac:(simpl; lia)).
  - eexists.
    exact (Match_Opcode_short_buffer "   " [0] (replicate 256 7) ltac:(simpl; lia)).
Defined.

Lemma Clear_Registers_loop_length todo : ∀ i regs,
  length (Clear_Registers_loop todo i regs) = length regs.
Proof.
  induction todo as [|todo IH]; intros i regs; simpl; [reflexivity|].
  by rewrite IH, length_insert.
Qed.

Lemma Match_Opcode_loop_length Bitmask Bitstream todo : ∀ i regs r regs',
  Match_Opcode_loop todo i Bitmask Bitstream regs = Some (r, regs') →
  length regs' = length regs.
Proof.
  induction todo as [|todo IH]; intros i regs r regs' Hrun.
  - by injection Hrun as _ <-.
  - cbn [Match_Opcode_loop] in Hrun.
    destruct (read_byte Bitstream (Z.lxor (i ÷ 8) 1)) as [b|]; [|discriminate].
    repeat match type of Hrun with
           | (if ?x then _ else _) = _ => destruct x
           end;
      try (by injection Hrun as _ <-);
      apply IH in Hrun; rewrite Hrun; try reflexivity.
    unfold store_bit. apply length_alter.
Qed.

Lemma Match_Opcode_length Bitmask Bitstream regs r regs' :
  Match_Opcode Bitmask Bitstream regs = Some (r, regs') →
  length regs' = length regs.
Proof.
  unfold Match_Opcode. intros Hrun. apply Match_Opcode_loop_length in Hrun.
  rewrite Hrun. apply Clear_Registers_loop_length.
Qed.

Lemma Get_Next_Opcode_loop_scratch Bitstream dis_op : ∀ i regs k regs',
  length regs = 256%nat →
  Get_Next_Opcode_loop dis_op i Bitstream regs = Some (k, regs') →
  length regs' = 256%nat
  ∧ (k = -1
     ∨ ∃ n op, k = i + Z.of_nat n ∧ dis_op !! n = Some op
               ∧ Match_Opcode (Opcode_String op) Bitstream (replicate 256 0)
                 = Some (1, regs')).
Proof.
  induction dis_op as [|op rest IH]; intros i regs k regs' Hlen Hrun; simpl in Hrun.
  - injection Hrun as <- <-. auto.
  - destruct (Match_Opcode (Opcode_String op) Bitstream regs)
      as [[r regs1]|] eqn:Hm; [|discriminate].
    pose proof (Match_Opcode_length _ _ _ _ _ Hm) as Hlen1.
    destruct (Z.eqb_spec r 1) as [->|Hr].
    + injection Hrun as <- <-. split; [congruence|]. right.
      exists 0%nat, op. split; [lia|]. split; [reflexivity|].
      unfold Match_Opcode in *.
      rewrite Clear_Registers_zero by apply length_replicate.
      rewrite <- (Clear_Registers_zero regs) by exact Hlen. exact Hm.
    + destruct (IH (i + 1) regs1 k regs' ltac:(congruence) Hrun)
        as [Hl [->|(n & op' & -> & Hn & Hm')]].
      * auto.
      * split; [exact Hl|]. right. exists (S n), op'.
        split; [lia|]. split; [exact Hn|exact Hm'].
Qed.

(** What the resolver leaves in the scratch for the callback: when
    [Get_Next_Opcode] returns an index, the scratch is the one a single match
    of that entry against the bytes builds from zero, whatever the failed
    attempts before it had stored; it still has its 256 cells, and the cell of
    every character holds the bits of that entry's field. *)
Theorem Get_Next_Opcode_scratch (dis_op : list Disasm_opcode)
    (Bitstream regs regs' : list Z) (i : Z) :
  length regs = 256%nat →
  Get_Next_Opcode dis_op Bitstream regs = Some (i, regs') →
  length regs' = 256%nat
  ∧ (i = -1 ∨ 0 ≤ i < Z.of_nat (length dis_op))
  ∧ (i ≠ -1 →
     ∃ op, at_index dis_op i = Some op
           ∧ Match_Opcode (Opcode_String op) Bitstream (replicate 256 0)
             = Some (1, regs')
           ∧ ∀ c, regs' !! reg_index c
                  = Some (if is_literal c then 0
                          else to_int (assemble
                                 (field_bits (Opcode_String op) Bitstream c)))).
Proof.
  intros Hlen Hrun. unfold Get_Next_Opcode in Hrun.
  destruct (Get_Next_Opcode_loop_scratch _ _ _ _ _ _ Hlen Hrun)
    as [Hl Hk].
  split; [exact Hl|]. split.
  - destruct Hk as [->|(n & op & -> & Hn & _)]; [by left|right].
    apply lookup_lt_Some in Hn. lia.
  - intros Hne. destruct Hk as [->|(n & op & -> & Hn & Hm)]; [done|].
    exists op. rewrite Z.add_0_l, at_index_nat.
    split; [exact Hn|]. split; [exact Hm|].
    intros c. apply (Match_Opcode_cell _ _ (replicate 256 0));
      [apply length_replicate|exact Hm].
Qed.

Lemma Get_Next_Opcode_scratch_witness :
  ∃ regs',
    Get_Next_Opcode (insertion_sort Comparison (register_all [])) [209; 28]
      (replicate 256 7) = Some (102, regs')
    ∧ regs' !! reg_index "d" = Some 13
    ∧ regs' !! reg_index "k" = Some 0.
Proof.
  destruct (Get_Next_Opcode (insertion_sort Comparison (register_all []))
              [209; 28] (replicate 256 7)) as [[i regs']|] eqn:Hrun;
    [|vm_compute in Hrun; discriminate Hrun].
  assert (i = 102) as ->.
  { vm_compute in Hrun. by injection Hrun as <- _. }
  destruct (Get_Next_Opcode_scratch _ _ _ _ _ (length_replicate 256 7) Hrun)
    as (_ & _ & Hop).
  destruct (Hop ltac:(discriminate)) as (op & Hat & _ & Hcells).
  assert (Opcode_String op = "0001 11rd  dddd rrrr") as Hpat.
  { vm_compute in Hat. by injection Hat as <-. }
  exists regs'. split; [reflexivity|].
  rewrite !Hcells, Hpat. split; vm_compute; reflexivity.
Defined.

(** ** The registry *)

(** [Comparison] is a comparison function as [qsort] needs one: it returns
    -1, 0 or 1, swapping the arguments negates the result, and "not greater"
    is transitive.  It puts the more specific pattern first and compares
    equal exactly the entries of equal specificity, whatever their patterns,
    mnemonics and callbacks. *)
Theorem Comparison_consistent (a b c : Disasm_opcode) :
  (Comparison a b = -1 ∨ Comparison a b = 0 ∨ Comparison a b = 1)
  ∧ Comparison a b = - Comparison b a
  ∧ (Comparison a b ≤ 0 → Comparison b c ≤ 0 → Comparison a c ≤ 0)
  ∧ (Comparison a b = 0 ↔ specificity a = specificity b)
  ∧ (Comparison a b = -1 ↔ specificity b < specificity a).
Proof.
  unfold Comparison, specificity. cbv zeta.
  repeat match goal with
         | |- context [?x <? ?y] => destruct (Z.ltb_spec x y)
         | |- context [?x =? ?y] => destruct (Z.eqb_spec x y)
         end; repeat split; intros; try lia; auto.
Qed.

(** [Supersede_Opcode] changes the first entry that carries the mnemonic,
    and of that entry the callback only: the patterns and mnemonics of the
    registry, and so its length and the order [Comparison] gives it, stay
    as they are.  It finds nothing exactly when no entry carries the
    mnemonic. *)
Theorem Supersede_Opcode_loop_first (Callback' : string) (mnemo' : AVR_opcode)
    (dis_op : list Disasm_opcode) :
  match Supersede_Opcode_loop Callback' mnemo' dis_op with
  | Some dis_op' =>
      (∃ pre op post,
         dis_op = (pre ++ op :: post)%list
         ∧ Forall (λ e, mnemo e ≠ mnemo') pre
         ∧ mnemo op = mnemo'
         ∧ dis_op' = (pre ++ {| Opcode_String := Opcode_String op;
                                mnemo := mnemo op;
                                Callback := Callback' |} :: post)%list)
      ∧ Opcode_String <$> dis_op' = Opcode_String <$> dis_op
      ∧ mnemo <$> dis_op' = mnemo <$> dis_op
  | None => Forall (λ e, mnemo e ≠ mnemo') dis_op
  end.
Proof.
  induction dis_op as [|e rest IH]; simpl; [constructor|].
  destruct (decide (mnemo e = mnemo')) as [Heq|Hne].
  - split; [|done]. exists [], e, rest. repeat split; [constructor|exact Heq].
  - destruct (Supersede_Opcode_loop Callback' mnemo' rest) as [rest'|].
    + destruct IH as [(pre & op & post & -> & Hpre & Hop & ->) [Hpat Hmn]].
      split; [|by rewrite !fmap_cons, Hpat, Hmn].
      exists (e :: pre), op, post. repeat split; [by constructor|exact Hop].
    + by constructor.
Qed.

(** Superseding the mnemonic that was registered last, and only then, gives
    the registry that registering with the new callback would have given. *)
Theorem Supersede_after_Register (Callback' Callback2 New_Opcode_String : string)
    (mnemo' : AVR_opcode) (dis_op : list Disasm_opcode) :
  Forall (λ e, mnemo e ≠ mnemo') dis_op →
  Supersede_Opcode_loop Callback2 mnemo'
    (Register_Opcode Callback' New_Opcode_String mnemo' dis_op)
  = Some (Register_Opcode Callback2 New_Opcode_String mnemo' dis_op).
Proof.
  unfold Register_Opcode. induction 1 as [|e rest He _ IH]; simpl.
  - rewrite decide_True by reflexivity. reflexivity.
  - rewrite decide_False by exact He. by rewrite IH.
Qed.

Lemma Supersede_after_Register_witness :
  Supersede_Opcode_loop "nop_Callback_PC" OPCODE_nop
    (Register_Opcode "nop_Callback" "0000 0000  0000 0000" OPCODE_nop
       (Register_Opcode "adc_Callback" "0001 11rd  dddd rrrr" OPCODE_adc []))
  = Some (Register_Opcode "nop_Callback_PC" "0000 0000  0000 0000" OPCODE_nop
            (Register_Opcode "adc_Callback" "0001 11rd  dddd rrrr" OPCODE_adc [])).
Proof.
  apply Supersede_after_Register.
  apply (bool_decide_unpack _). vm_compute. exact I.
Defined.

(** When no entry carries the mnemonic, [Supersede_Opcode] changes nothing
    and writes one line to [stderr] that gives the number of the mnemonic and
    the name the table has for it; nothing goes to [stdout].  The name is
    read from [avr_opcodes] without a check of the index: a mnemonic without
    a row there makes the read fall outside the table. *)
Theorem Supersede_Opcode_unregistered `{Env : Environment}
    (Callback' : string) (mnemo' : AVR_opcode) (w : world Ext) :
  Forall (λ e, mnemo e ≠ mnemo') (dis_op w) →
  Supersede_Opcode Callback' mnemo' w
  = match at_index avr_opcodes (opcode_id mnemo') with
    | Some row =>
        Done (tt, write_stderr
                    ("Error: No callback fund to supersede opcode "
                     +:+ fmt_d (opcode_id mnemo') +:+ " ("
                     +:+ row_opcode row +:+ ")." +:+ nl) w)
    | None => Undefined
    end.
Proof.
  intros Hnone. unfold Supersede_Opcode, bind, get.
  pose proof (Supersede_Opcode_loop_first Callback' mnemo' (dis_op w)) as Hs.
  destruct (Supersede_Opcode_loop Callback' mnemo' (dis_op w)) as [dis_op'|].
  - destruct Hs as [(pre & op & post & Heq & _ & Hop & _) _].
    rewrite Heq, Forall_app, Forall_cons in Hnone. by destruct Hnone as (_ & ? & _).
  - unfold defined. destruct (at_index avr_opcodes (opcode_id mnemo')); reflexivity.
Qed.

Lemma Supersede_Opcode_unregistered_witness :
  ∃ w',
    Supersede_Opcode (Env := plain_env) "des_Callback_PC" OPCODE_adc initial_world
    = Done (tt, w')
    ∧ dis_op w' = [] ∧ stdout w' = []
    ∧ stderr w' = ["Error: No callback fund to supersede opcode 0 (op)." +:+ nl].
Proof.
  eexists. split.
  - rewrite (Supersede_Opcode_unregistered (Env := plain_env)
               "des_Callback_PC" OPCODE_adc initial_world);
      [reflexivity|constructor].
  - repeat split.
Defined.

(** The registry of a pseudo-code run.  Every supersession of [disasm] finds
    its mnemonic, so none of them reports an error; the entries keep their
    patterns and mnemonics, those of the mnemonics listed get the callback
    listed for them, and all the others keep the callback they were
    registered with. *)
Theorem pseudocode_registry :
  ∃ dis_op',
    supersede_list pseudocode_supersessions (register_all []) = Some dis_op'
    ∧ Forall2 (λ e e',
                 Opcode_String e' = Opcode_String e
                 ∧ mnemo e' = mnemo e
                 ∧ Callback e'
                   = default (Callback e)
                       (superseding pseudocode_supersessions (mnemo e)))
              (register_all []) dis_op'
    ∧ NoDup (mnemo <$> register_all [])
    ∧ NoDup (snd <$> pseudocode_supersessions).
Proof.
  destruct (supersede_list pseudocode_supersessions (register_all []))
    as [dis_op'|] eqn:Hs; [|vm_compute in Hs; discriminate Hs].
  exists dis_op'. split; [reflexivity|].
  vm_compute in Hs. injection Hs as <-.
  split; [|split]; apply (bool_decide_unpack _); vm_compute; exact I.
Qed.

(** ** The driver *)

(** Data marked by the tag file: when the tag provider reports a number of
    bytes other than 0, the iteration of the second loop ends there.  The
    cursor moves by that number, and the driver neither attempts a match
    (the scratch is untouched) nor prints anything of its own. *)
Theorem pass2_tagged_data `{Env : Environment} (fuel : nat)
    (Bitstream : list Z) (Read Pos Added : Z) (w w1 : world Ext) :
  Tagfile_Process_Data Bitstream Pos w = (Added, w1) →
  Added ≠ 0 →
  Pos < Read →
  pass2_body Bitstream Pos w = Done (Pos + Added, w1)
  ∧ pass2_loop (S fuel) Bitstream Read Pos w
    = pass2_loop fuel Bitstream Read (Pos + Added) w1.
Proof.
  intros Htag Hne Hlt.
  assert (pass2_body Bitstream Pos w = Done (Pos + Added, w1)) as Hbody.
  { unfold pass2_body, bind, call. rewrite Htag.
    destruct (Z.eqb_spec Added 0); [done|reflexivity]. }
  split; [exact Hbody|].
  cbn [pass2_loop]. apply Z.ltb_lt in Hlt. rewrite Hlt.
  unfold bind at 1. by rewrite Hbody.
Qed.

Lemma pass2_tagged_data_witness :
  pass2_loop (Env := tagged_env) 2 [1; 2; 3; 4; 0; 0] 6 0
    (set_dis_op (Env := tagged_env)
       (insertion_sort Comparison (register_all [])) initial_world)
  = pass2_loop (Env := tagged_env) 1 [1; 2; 3; 4; 0; 0] 6 4
      (set_dis_op (Env := tagged_env)
         (insertion_sort Comparison (register_all [])) initial_world).
Proof.
  apply (pass2_tagged_data (Env := tagged_env) 1 [1; 2; 3; 4; 0; 0] 6 0 4);
    [reflexivity|discriminate|reflexivity].
Defined.

(** *** Rules for [respects] *)

Section Respects.

Context `{Env : Environment}.

Lemma respects_ret {A} R (a : A) (Q : list Disasm_opcode → A → Prop) :
  (∀ ops, R ops → Q ops a) → respects R (ret a) Q.
Proof. intros HQ w Hw. simpl. auto. Qed.

Lemma respects_bind {A B} R (c : M A) (k : A → M B) P Q :
  respects R c P →
  (∀ a, respects (λ ops, R ops ∧ P ops a) (k a) Q) →
  respects R (bind c k) Q.
Proof.
  intros Hc Hk w Hw. unfold bind. specialize (Hc w Hw).
  destruct (c w) as [[a w']| |]; [|done..].
  destruct Hc as [Heq HP]. specialize (Hk a w'). rewrite Heq in Hk.
  specialize (Hk (conj Hw HP)).
  destruct (k a w') as [[b w'']| |]; [|done..].
  destruct Hk as [Heq' HQ]. split; [congruence|exact HQ].
Qed.

Lemma respects_weaken {A} (R R' : list Disasm_opcode → Prop) (c : M A)
    (Q Q' : list Disasm_opcode → A → Prop) :
  respects R c Q →
  (∀ ops, R' ops → R ops) →
  (∀ ops a, R' ops → Q ops a → Q' ops a) →
  respects R' c Q'.
Proof.
  intros Hc HR HQ w Hw. specialize (Hc w (HR _ Hw)).
  destruct (c w) as [[a w']| |]; [|done..].
  destruct Hc as [Heq Ha]. split; [exact Heq|]. by apply HQ.
Qed.

Lemma respects_get R : respects R get (λ ops w, dis_op w = ops).
Proof. intros w Hw. simpl. auto. Qed.

Lemma respects_modify R (f : world Ext → world Ext) :
  keeps_registry f → respects R (modify f) (λ _ _, True).
Proof. intros Hf w Hw. simpl. auto. Qed.

Lemma respects_printf R s : respects R (printf s) (λ _ _, True).
Proof. apply respects_modify. intros w. reflexivity. Qed.

Lemma respects_defined {A} R (o : option A) :
  respects R (defined o) (λ _ a, o = Some a).
Proof. intros w Hw. unfold defined. destruct o; simpl; auto. Qed.

Lemma respects_when R (b : bool) (c : M unit) :
  respects R c (λ _ _, True) → respects R (when b c) (λ _ _, True).
Proof.
  intros Hc. destruct b; [exact Hc|]. by apply respects_ret.
Qed.

Lemma respects_then {A B} R (c : M A) (k : M B) Q :
  respects R c (λ _ _, True) →
  respects R k Q →
  respects R (bind c (λ _, k)) Q.
Proof.
  intros Hc Hk. eapply respects_bind; [exact Hc|].
  intros a. eapply respects_weaken; [exact Hk|tauto|auto].
Qed.

Lemma respects_resolve R Bitstream Pos :
  respects R (resolve Bitstream Pos) (λ _ _, True).
Proof.
  unfold resolve.
  eapply respects_bind; [apply respects_defined|]. intros p.
  eapply respects_bind; [apply respects_get|]. intros w0.
  eapply respects_bind; [apply respects_defined|]. intros r.
  apply respects_then; [|by apply respects_ret].
  apply respects_modify. intros w. reflexivity.
Qed.

Lemma respects_invoke_Callback R Bitstream Pos Opcode :
  (∀ cb p Pos m, keeps_registry (run_Callback cb p Pos m)) →
  respects R (invoke_Callback Bitstream Pos Opcode) (λ _ _, True).
Proof.
  intros Hcb. unfold invoke_Callback.
  eapply respects_bind; [apply respects_get|]. intros w0.
  eapply respects_bind; [apply respects_defined|]. intros op.
  eapply respects_bind; [apply respects_defined|]. intros p.
  apply respects_modify, Hcb.
Qed.

Lemma respects_opcode_bytes R Opcode :
  respects R (opcode_bytes Opcode)
    (λ ops n, ∃ op, at_index ops Opcode = Some op ∧ n = bytes_of op).
Proof.
  unfold opcode_bytes.
  eapply respects_bind; [apply respects_get|]. intros w0.
  eapply respects_bind; [apply respects_defined|]. intros op.
  apply respects_ret. intros ops [[_ Hw0] Hop]. simpl in *. subst ops.
  by exists op.
Qed.

Lemma at_index_elem_of {A} (l : list A) i x : at_index l i = Some x → x ∈ l.
Proof.
  intros H. apply at_index_Some in H as [_ H]. by eapply list_elem_of_lookup_2.
Qed.

(** An iteration of the first loop moves the cursor by 2 or by the bytes of
    a registered entry. *)
Lemma respects_pass1_body R Bitstream Pos :
  (∀ cb p Pos m, keeps_registry (run_Callback cb p Pos m)) →
  respects R (pass1_body Bitstream Pos)
    (λ ops Pos', Pos' = Pos + 2 ∨ ∃ op, op ∈ ops ∧ Pos' = Pos + bytes_of op).
Proof.
  intros Hcb. unfold pass1_body.
  eapply respects_bind; [apply respects_resolve|]. intros Opcode.
  destruct (Opcode =? -1); [apply respects_ret; auto|].
  apply respects_then; [by apply respects_invoke_Callback|].
  eapply respects_bind; [apply respects_opcode_bytes|]. intros n.
  apply respects_ret. intros ops [_ (op & Hin & ->)]. right.
  exists op. split; [by eapply at_index_elem_of|reflexivity].
Qed.

Lemma respects_print_opcode_bytes R Bitstream Pos todo : ∀ i,
  respects R (print_opcode_bytes todo i Bitstream Pos) (λ _ _, True).
Proof.
  induction todo as [|todo IH]; intros i; simpl; [by apply respects_ret|].
  eapply respects_bind; [apply respects_defined|]. intros b.
  apply respects_then; [apply respects_printf|].
  eapply respects_weaken; [apply IH|tauto|auto].
Qed.

Lemma respects_print_missing_spaces R todo :
  respects R (print_missing_spaces todo) (λ _ _, True).
Proof.
  induction todo as [|todo IH]; simpl; [by apply respects_ret|].
  apply respects_then; [apply respects_printf|exact IH].
Qed.

Lemma respects_emit_instruction R Bitstream Pos Opcode :
  (∀ cb p Pos m, keeps_registry (run_Callback cb p Pos m)) →
  (∀ Pos, keeps_registry (Print_JumpCalls Pos)) →
  respects R (emit_instruction Bitstream Pos Opcode)
    (λ ops Pos', ∃ op, at_index ops Opcode = Some op ∧ Pos' = Pos + bytes_of op).
Proof.
  intros Hcb Hjc. unfold emit_instruction.
  apply respects_then; [apply respects_modify; by intros w|].
  apply respects_then; [by apply respects_invoke_Callback|].
  eapply respects_bind; [apply respects_get|]. intros w1.
  eapply respects_weaken with (R := R) (Q := λ ops Pos', ∃ op, at_index ops Opcode = Some op ∧ Pos' = Pos + bytes_of op);
    [|tauto|auto].
  apply respects_then; [apply respects_when, respects_modify, Hjc|].
  eapply respects_bind; [apply respects_get|]. intros w2.
  eapply respects_weaken with (R := R) (Q := λ ops Pos', ∃ op, at_index ops Opcode = Some op ∧ Pos' = Pos + bytes_of op);
    [|tauto|auto].
  apply respects_then; [apply respects_when, respects_printf|].
  eapply respects_bind; [apply respects_get|]. intros w3.
  eapply respects_weaken with (R := R) (Q := λ ops Pos', ∃ op, at_index ops Opcode = Some op ∧ Pos' = Pos + bytes_of op);
    [|tauto|auto].
  apply respects_then.
  { apply respects_when.
    eapply respects_bind; [apply respects_defined|]. intros op.
    eapply respects_bind; [apply respects_defined|]. intros row.
    apply respects_printf. }
  eapply respects_bind; [apply respects_get|]. intros w4.
  eapply respects_weaken with (R := R) (Q := λ ops Pos', ∃ op, at_index ops Opcode = Some op ∧ Pos' = Pos + bytes_of op);
    [|tauto|auto].
  apply respects_then.
  { apply respects_when.
    eapply respects_bind; [apply respects_opcode_bytes|]. intros n.
    apply respects_then; [apply respects_print_opcode_bytes|].
    apply respects_then; [apply respects_printf|].
    apply respects_print_missing_spaces. }
  eapply respects_bind; [apply respects_get|]. intros w5.
  eapply respects_weaken with (R := R) (Q := λ ops Pos', ∃ op, at_index ops Opcode = Some op ∧ Pos' = Pos + bytes_of op);
    [|tauto|auto].
  apply respects_then.
  { destruct (is_empty (dis_code w5)).
    - eapply respects_bind; [apply respects_defined|]. intros op.
      apply respects_printf.
    - destruct (is_empty (dis_comment w5) || negb (Show_Comments (dis_opts w5)));
        [apply respects_printf|].
      destruct (negb (Show_PseudoCode (dis_opts w5))); apply respects_printf. }
  eapply respects_bind; [apply respects_get|]. intros w6.
  apply respects_then; [apply respects_printf|].
  eapply respects_bind; [apply respects_opcode_bytes|]. intros n.
  apply respects_ret. intros ops [_ (op & Hin & ->)]. by exists op.
Qed.

Lemma respects_emit_invalid R Bitstream Pos :
  respects R (emit_invalid Bitstream Pos) (λ _ Pos', Pos' = Pos + 2).
Proof.
  unfold emit_invalid.
  eapply respects_bind; [apply respects_defined|]. intros hi.
  eapply respects_bind; [apply respects_defined|]. intros lo.
  apply respects_then; [apply respects_printf|]. by apply respects_ret.
Qed.

(** An iteration of the second loop moves the cursor by what the tag
    provider reports, by 2, or by the bytes of a registered entry. *)
Lemma respects_pass2_body R Bitstream Pos :
  collaborators_keep_registry → tags_go_forward →
  respects R (pass2_body Bitstream Pos)
    (λ ops Pos', Pos < Pos' ∨ ∃ op, op ∈ ops ∧ Pos' = Pos + bytes_of op).
Proof.
  intros (Hcb & Hjc & _ & _ & Htag) Hfw. unfold pass2_body.
  eapply respects_bind with (P := λ _ Added, 0 ≤ Added).
  { intros w Hw. unfold call. specialize (Htag Bitstream Pos w).
    specialize (Hfw Bitstream Pos w).
    destruct (Tagfile_Process_Data Bitstream Pos w) as [Added w1]. auto. }
  intros Added. destruct (Z.eqb_spec Added 0) as [->|Hne]; simpl.
  - eapply respects_bind; [apply respects_resolve|]. intros Opcode.
    destruct (negb (Opcode =? -1)).
    + eapply (respects_weaken (λ _, True));
        [by apply respects_emit_instruction|done|].
      intros ops Pos' _ (op & Hop & ->). right.
      exists op. split; [by eapply at_index_elem_of|reflexivity].
    + eapply (respects_weaken (λ _, True)); [apply respects_emit_invalid|done|].
      intros ops a _ ->. left. lia.
  - apply respects_ret. intros ops [_ Hpos]. left. lia.
Qed.

End Respects.

(** *** Termination of the two loops *)

Lemma bytes_of_whole op :
  8 ≤ Get_Bitmask_Length (Opcode_String op) → 1 ≤ bytes_of op.
Proof. intros H. unfold bytes_of. apply Z.quot_le_lower_bound; lia. Qed.

Lemma whole_bytes_step dis_op Pos Pos' :
  whole_bytes dis_op →
  (Pos < Pos' ∨ ∃ op, op ∈ dis_op ∧ Pos' = Pos + bytes_of op) →
  Pos + 1 ≤ Pos'.
Proof.
  intros Hwhole [Hlt|(op & Hin & ->)]; [lia|].
  unfold whole_bytes in Hwhole. rewrite Forall_forall in Hwhole.
  pose proof (bytes_of_whole op (Hwhole op Hin)). lia.
Qed.

Section Termination.

Context `{Env : Environment}.

Lemma respects_assume {A} R (φ : Prop) (c : M A) Q :
  (φ → respects R c Q) → respects (λ ops, R ops ∧ φ) c Q.
Proof. intros Hc w [Hw Hφ]. by apply Hc. Qed.

Lemma respects_pass1_loop Bitstream Read fuel : ∀ Pos,
  (∀ cb p Pos m, keeps_registry (run_Callback cb p Pos m)) →
  Read - Pos ≤ Z.of_nat fuel →
  respects whole_bytes (pass1_loop fuel Bitstream Read Pos) (λ _ _, True).
Proof.
  induction fuel as [|fuel IH]; intros Pos Hcb Hfuel; cbn [pass1_loop];
    destruct (Z.ltb_spec Pos Read); try (by apply respects_ret); [lia|].
  eapply respects_bind; [by apply respects_pass1_body|].
  intros Pos' w [Hwhole Hstep].
  apply (IH Pos'); [exact Hcb| |exact Hwhole].
  assert (Pos + 1 ≤ Pos'); [|lia].
  apply (whole_bytes_step (dis_op w)); [exact Hwhole|].
  destruct Hstep as [->|Hop]; [left; lia|by right].
Qed.

Lemma respects_pass2_loop Bitstream Read fuel : ∀ Pos,
  collaborators_keep_registry → tags_go_forward →
  Read - Pos ≤ Z.of_nat fuel →
  respects whole_bytes (pass2_loop fuel Bitstream Read Pos) (λ _ _, True).
Proof.
  induction fuel as [|fuel IH]; intros Pos Hkeep Hfw Hfuel; cbn [pass2_loop];
    destruct (Z.ltb_spec Pos Read); try (by apply respects_ret); [lia|].
  eapply respects_bind; [by apply respects_pass2_body|].
  intros Pos' w [Hwhole Hstep].
  apply (IH Pos'); [exact Hkeep|exact Hfw| |exact Hwhole].
  pose proof (whole_bytes_step (dis_op w) Pos Pos' Hwhole Hstep). lia.
Qed.

Lemma respects_Disassemble Bitstream Read addr fuel :
  collaborators_keep_registry → tags_go_forward →
  Read ≤ Z.of_nat fuel →
  respects whole_bytes (Disassemble fuel Bitstream Read addr) (λ _ _, True).
Proof.
  intros Hkeep Hfw Hfuel.
  pose proof Hkeep as (Hcb & Hjc & Hel & Hio & Htag).
  unfold Disassemble.
  apply respects_then; [apply respects_modify; by intros w|].
  eapply respects_bind; [apply respects_get|]. intros w0.
  eapply respects_weaken with (R := whole_bytes) (Q := λ _ _, True);
    [|tauto|auto].
  eapply respects_bind with (P := λ _ Pos, Pos = 0).
  { destruct (Process_Labels (dis_opts w0)
              || negb (Show_PseudoCode (dis_opts w0))
                 && (CodeStyle (dis_opts w0) =? CODESTYLE_AVRGCC));
      [|by apply respects_ret].
    apply respects_then; [apply respects_pass1_loop; [exact Hcb|lia]|].
    apply respects_then; [by apply respects_modify|].
    apply respects_then; [apply respects_modify; by intros w|].
    by apply respects_ret. }
  intros Pos. apply respects_assume. intros ->.
  eapply respects_bind; [apply respects_get|]. intros w1.
  eapply respects_weaken with (R := whole_bytes) (Q := λ _ _, True);
    [|tauto|auto].
  apply respects_then; [by apply respects_when, respects_modify|].
  apply respects_then; [apply respects_pass2_loop; [exact Hkeep|exact Hfw|lia]|].
  eapply respects_bind; [apply respects_get|]. intros w2.
  apply respects_when.
  apply respects_then; apply respects_printf.
Qed.

(** The registry of [disasm] on its way into [Disassemble], for a run that
    gets past the tag file. *)
Lemma disasm_stages fuel Bitstream Read addr (w : world Ext) :
  (after_tagfile w).1 ≠ 0 →
  ∃ dis_op',
    Opcode_String <$> dis_op' = Opcode_String <$> register_all []
    ∧ disasm fuel Bitstream Read addr w
      = if table_check avr_opcodes 0 then
          match Disassemble fuel Bitstream Read addr
                  (set_dis_op (qsort Comparison dis_op') (after_tagfile w).2)
          with
          | Done (_, w') => Done (0, w')
          | Undefined => Undefined
          | OutOfFuel => OutOfFuel
          end
        else
          Done (-1, msg_error table_broken_message
                      (set_dis_op (qsort Comparison dis_op')
                         (after_tagfile w).2)).
Proof.
  intros Hr.
  destruct (registry_before_sort (Show_PseudoCode (dis_opts (after_tagfile w).2)))
    as (dis_op' & Hreg & Hpat).
  exists dis_op'. split; [exact Hpat|].
  assert (∀ r1 w1, after_tagfile w = (r1, w1) →
            disasm fuel Bitstream Read addr w
            = bind (ret r1) (λ tagfile_read,
                if tagfile_read =? 0 then ret 0
                else
                  bind (modify (set_dis_op [])) (λ _,
                  bind (modify (λ w, set_dis_op (register_all (dis_op w)) w)) (λ _,
                  bind get (λ w,
                  bind (when (Show_PseudoCode (dis_opts w))
                          (supersede_all pseudocode_supersessions)) (λ _,
                  bind (modify (λ w, set_dis_op (qsort Comparison (dis_op w)) w)) (λ _,
                  if negb (table_check avr_opcodes 0) then
                    bind (modify (msg_error table_broken_message)) (λ _, ret (-1))
                  else
                    bind (Disassemble fuel Bitstream Read addr) (λ _, ret 0))))))) w1)
    as Hunfold.
  { intros r1 w1 Htf. unfold disasm, after_tagfile in *. unfold bind at 1, get at 1.
    unfold bind at 1.
    destruct (Tagfile (dis_opts w)) as [name|].
    - unfold call. rewrite Htf. reflexivity.
    - injection Htf as <- <-. reflexivity. }
  destruct (after_tagfile w) as [r1 w1] eqn:Htf. simpl in Hr, Hreg |- *.
  rewrite (Hunfold r1 w1 eq_refl). clear Hunfold.
  unfold bind at 1, ret at 1.
  destruct (Z.eqb_spec r1 0) as [|_]; [done|].
  unfold bind at 1, modify at 1. unfold bind at 1, modify at 1.
  unfold bind at 1, get at 1. unfold bind at 1.
  change (dis_opts (set_dis_op _ (set_dis_op [] w1))) with (dis_opts w1).
  assert (when (Show_PseudoCode (dis_opts w1))
            (supersede_all pseudocode_supersessions)
            (set_dis_op (register_all (dis_op (set_dis_op [] w1)))
               (set_dis_op [] w1))
          = Done (tt, set_dis_op dis_op' w1)) as ->.
  { unfold when. destruct (Show_PseudoCode (dis_opts w1)).
    - rewrite (supersede_all_done _ _ dis_op'); [reflexivity|exact Hreg].
    - injection Hreg as <-. reflexivity. }
  unfold bind at 1, modify at 1.
  change (set_dis_op (qsort Comparison (dis_op (set_dis_op dis_op' w1)))
            (set_dis_op dis_op' w1))
    with (set_dis_op (qsort Comparison dis_op') w1).
  destruct (table_check avr_opcodes 0); simpl.
  + unfold bind, ret.
    destruct (Disassemble fuel Bitstream Read addr
                (set_dis_op (qsort Comparison dis_op') w1)) as [[[] w']| |];
      reflexivity.
  + reflexivity.
Qed.

End Termination.

(** Every pattern that [disasm] registers spans 2 or 4 whole bytes. *)
Lemma registered_patterns_whole_bytes :
  Forall (λ Opcode, Get_Bitmask_Length Opcode = 16 ∨ Get_Bitmask_Length Opcode = 32)
         (Opcode_String <$> register_all []).
Proof. apply (bool_decide_unpack _). vm_compute. exact I. Qed.

(** [disasm] terminates.  If the collaborators leave the registry alone and
    the tag provider never reports a negative number of bytes, each
    iteration of either loop moves the cursor forward, since every registered
    pattern spans at least one whole byte: with [Read] iterations allowed to
    each loop the run never stops for lack of them.  (It may still read
    outside the buffer.) *)
Theorem disasm_terminates `{Env : Environment} (fuel : nat)
    (Bitstream : list Z) (Read addr : Z) (w : world Ext) :
  collaborators_keep_registry →
  tags_go_forward →
  Read ≤ Z.of_nat fuel →
  disasm fuel Bitstream Read addr w ≠ OutOfFuel.
Proof.
  intros Hkeep Hfw Hfuel.
  destruct (Z.eq_dec (after_tagfile w).1 0) as [H0|Hne].
  - unfold disasm, after_tagfile in *. unfold bind at 1, get at 1. unfold bind at 1.
    destruct (Tagfile (dis_opts w)) as [name|]; [|discriminate H0].
    unfold call. destruct (Read_Tagfile name w) as [r1 w1]. simpl in H0.
    subst r1. discriminate.
  - destruct (disasm_stages fuel Bitstream Read addr w Hne)
      as (dis_op' & Hpat & ->).
    destruct (table_check avr_opcodes 0); [|discriminate].
    pose proof (respects_Disassemble Bitstream Read addr fuel Hkeep Hfw Hfuel
                  (set_dis_op (qsort Comparison dis_op') (after_tagfile w).2))
      as Hrun.
    destruct (Disassemble fuel Bitstream Read addr
                (set_dis_op (qsort Comparison dis_op') (after_tagfile w).2))
      as [[[] w']| |]; [discriminate..|].
    intros _. apply Hrun. simpl. unfold whole_bytes.
    rewrite <- (qsort_permutation dis_op').
    pose proof registered_patterns_whole_bytes as Hall.
    rewrite <- Hpat, Forall_fmap in Hall.
    eapply Forall_impl; [exact Hall|]. intros op Hop. simpl in Hop. lia.
Qed.

Lemma plain_env_keeps_registry :
  collaborators_keep_registry (Env := plain_env)
  ∧ tags_go_forward (Env := plain_env).
Proof.
  split; [|intros B Pos w; simpl; lia].
  repeat split; intros; intros ?; reflexivity.
Qed.

Lemma disasm_terminates_witness :
  disasm (Env := plain_env) 6 [0; 0; 209; 28; 255; 255] 6 0 initial_world
  ≠ OutOfFuel.
Proof.
  apply (disasm_terminates (Env := plain_env) 6);
    [apply plain_env_keeps_registry|apply plain_env_keeps_registry|simpl; lia].
Defined.

(** *** A pattern of less than 8 significant characters *)

Lemma Get_Next_Opcode_loop_index Bitstream dis_op : ∀ i regs regs2,
  fst <$> Get_Next_Opcode_loop dis_op i Bitstream regs
  = fst <$> Get_Next_Opcode_loop dis_op i Bitstream regs2.
Proof.
  induction dis_op as [|op rest IH]; intros i regs regs2; simpl; [reflexivity|].
  pose proof (Match_Opcode_outcome (Opcode_String op) Bitstream regs) as H1.
  pose proof (Match_Opcode_outcome (Opcode_String op) Bitstream regs2) as H2.
  destruct (Match_Opcode (Opcode_String op) Bitstream regs) as [[r regs1]|],
    (Match_Opcode (Opcode_String op) Bitstream regs2) as [[r2 regs1']|];
    simpl in H1, H2; try congruence.
  assert (r2 = r) as -> by congruence.
  destruct (r =? 1); [reflexivity|apply IH].
Qed.

Lemma Get_Next_Opcode_index dis_op Bitstream regs :
  fst <$> Get_Next_Opcode dis_op Bitstream regs = resolve_index dis_op Bitstream.
Proof. apply Get_Next_Opcode_loop_index. Qed.

(** The driver relies on every pattern spanning whole bytes.  If the entry
    the resolver picks at a position has fewer than 8 significant characters,
    its length in bytes is 0 and the cursor stays where it is: the first loop
    comes back to the same position for ever. *)
Theorem short_pattern_stalls_pass1 `{Env : Environment} (fuel : nat)
    (Bitstream : list Z) (Read Pos : Z) (p : list Z) (w : world Ext)
    (i : Z) (op : Disasm_opcode) :
  (∀ cb p Pos m, keeps_registry (run_Callback cb p Pos m)) →
  ptr_add Bitstream Pos = Some p →
  Pos < Read →
  resolve_index (dis_op w) p = Some i →
  at_index (dis_op w) i = Some op →
  Get_Bitmask_Length (Opcode_String op) < 8 →
  pass1_loop fuel Bitstream Read Pos w = OutOfFuel.
Proof.
  intros Hcb Hp Hlt Hres Hop Hshort. revert w Hres Hop.
  induction fuel as [|fuel IH]; intros w Hres Hop; cbn [pass1_loop];
    apply Z.ltb_lt in Hlt as Hlt'; rewrite Hlt'; [reflexivity|].
  assert (∃ w', pass1_body Bitstream Pos w = Done (Pos, w')
                ∧ dis_op w' = dis_op w) as (w' & Hbody & Hsame).
  { unfold pass1_body, resolve, bind, defined, get, modify, ret.
    rewrite Hp. rewrite <- Get_Next_Opcode_index with (regs := dis_regs w) in Hres.
    destruct (Get_Next_Opcode (dis_op w) p (dis_regs w)) as [[k regs']|];
      [|discriminate]. injection Hres as ->. cbn [fst snd].
    pose proof (at_index_Some _ _ _ Hop) as [Hi _].
    destruct (Z.eqb_spec i (-1)); [lia|].
    unfold invoke_Callback, opcode_bytes, bind, defined, get, modify, ret.
    change (dis_op (set_dis_regs regs' w)) with (dis_op w).
    rewrite Hop, Hp. rewrite Hcb.
    change (dis_op (set_dis_regs regs' w)) with (dis_op w). rewrite Hop.
    pose proof (Get_Bitmask_Length_nonneg (Opcode_String op)).
    rewrite Z.quot_small, Z.add_0_r by lia.
    eexists. split; [reflexivity|]. by rewrite Hcb. }
  unfold bind at 1. rewrite Hbody. apply IH; by rewrite Hsame.
Qed.

Lemma short_pattern_stalls_pass1_witness :
  pass1_loop (Env := plain_env) 7 [0; 0] 2 0
    (set_dis_op (Env := plain_env)
       [ {| Opcode_String := "0000"; mnemo := OPCODE_nop;
            Callback := "nop_Callback" |} ] initial_world)
  = OutOfFuel.
Proof.
  eapply (short_pattern_stalls_pass1 (Env := plain_env) 7 [0; 0] 2 0 [0; 0] _ 0).
  - intros cb p Pos m w. reflexivity.
  - reflexivity.
  - reflexivity.
  - vm_compute. reflexivity.
  - reflexivity.
  - vm_compute. reflexivity.
Defined.

(** *** What the driver reads and how far it moves *)

Lemma Match_Opcode_loop_take Bitmask Bitstream todo : ∀ i regs,
  0 ≤ i →
  i + Z.of_nat todo ≤ Get_Bitmask_Length Bitmask →
  Match_Opcode_loop todo i Bitmask Bitstream regs
  = Match_Opcode_loop todo i Bitmask
      (take (Z.to_nat (bytes_spanned (Get_Bitmask_Length Bitmask))) Bitstream)
      regs.
Proof.
  induction todo as [|todo IH]; intros i regs Hi Hle; [reflexivity|].
  cbn [Match_Opcode_loop].
  assert (read_byte
            (take (Z.to_nat (bytes_spanned (Get_Bitmask_Length Bitmask))) Bitstream)
            (Z.lxor (i ÷ 8) 1)
          = read_byte Bitstream (Z.lxor (i ÷ 8) 1)) as ->.
  { pose proof (lxor_1_spanned (Get_Bitmask_Length Bitmask) i ltac:(lia)) as Hb.
    rewrite Z.quot_div_nonneg by lia. unfold read_byte.
    destruct (Z.ltb_spec (Z.lxor (i / 8) 1) 0); [reflexivity|].
    apply lookup_take_lt. lia. }
  destruct (read_byte Bitstream (Z.lxor (i ÷ 8) 1)) as [b|]; [|reflexivity].
  rewrite !(IH (i + 1)) by lia. reflexivity.
Qed.

(** [Match_Opcode] looks at no byte behind the whole 16-bit words that the
    pattern spans: cutting the buffer off there changes nothing, neither
    the result nor the scratch. *)
Theorem Match_Opcode_reads_spanned_bytes_only (Bitmask : string)
    (Bitstream regs : list Z) :
  Match_Opcode Bitmask Bitstream regs
  = Match_Opcode Bitmask
      (take (Z.to_nat (bytes_spanned (Get_Bitmask_Length Bitmask))) Bitstream)
      regs.
Proof.
  unfold Match_Opcode. cbv zeta. apply Match_Opcode_loop_take; [lia|].
  pose proof (Get_Bitmask_Length_nonneg Bitmask). lia.
Qed.

(** A matched instruction in the second loop: if the callbacks and the label
    printer leave the registry alone, an iteration that matches entry [i] and
    comes to its end has moved the cursor by the significant length of that
    entry's pattern divided by 8; the iteration never hangs. *)
Theorem pass2_matched_instruction `{Env : Environment}
    (Bitstream : list Z) (Pos : Z) (w w1 : world Ext) (p regs' : list Z)
    (i : Z) (op : Disasm_opcode) :
  (∀ cb p Pos m, keeps_registry (run_Callback cb p Pos m)) →
  (∀ Pos, keeps_registry (Print_JumpCalls Pos)) →
  Tagfile_Process_Data Bitstream Pos w = (0, w1) →
  ptr_add Bitstream Pos = Some p →
  Get_Next_Opcode (dis_op w1) p (dis_regs w1) = Some (i, regs') →
  i ≠ -1 →
  at_index (dis_op w1) i = Some op →
  match pass2_body Bitstream Pos w with
  | Done (Pos', w') =>
      Pos' = Pos + Get_Bitmask_Length (Opcode_String op) ÷ 8
      ∧ dis_op w' = dis_op w1
  | Undefined => True
  | OutOfFuel => False
  end.
Proof.
  intros Hcb Hjc Htag Hp Hrun Hne Hop.
  unfold pass2_body, bind, call. rewrite Htag. cbn [negb Z.eqb].
  unfold resolve, bind, defined, get, modify, ret. rewrite Hp, Hrun.
  cbn [fst snd]. destruct (Z.eqb_spec i (-1)); [done|]. cbn [negb].
  pose proof (respects_emit_instruction (λ _, True) Bitstream Pos i Hcb Hjc
                (set_dis_regs regs' w1) I) as Hemit.
  destruct (emit_instruction Bitstream Pos i (set_dis_regs regs' w1))
    as [[Pos' w']| |]; [|done..].
  destruct Hemit as [Hsame (op' & Hop' & ->)].
  change (dis_op (set_dis_regs regs' w1)) with (dis_op w1) in *.
  split; [|exact Hsame]. unfold bytes_of. congruence.
Qed.

Lemma pass2_matched_instruction_witness :
  ∃ w',
    pass2_body (Env := plain_env) [12; 148; 52; 18] 0
      (set_dis_op (Env := plain_env)
         (insertion_sort Comparison (register_all [])) initial_world)
    = Done (4, w').
Proof.
  set (w := set_dis_op (Env := plain_env)
              (insertion_sort Comparison (register_all [])) initial_world).
  destruct (Get_Next_Opcode (dis_op w) [12; 148; 52; 18] (dis_regs w))
    as [[i regs']|] eqn:Hrun; [|vm_compute in Hrun; discriminate Hrun].
  assert (i = 70) as ->.
  { vm_compute in Hrun. by injection Hrun as <- _. }
  destruct (at_index (dis_op w) 70) as [op|] eqn:Hop;
    [|vm_compute in Hop; discriminate Hop].
  pose proof (pass2_matched_instruction (Env := plain_env)
                [12; 148; 52; 18] 0 w w [12; 148; 52; 18] regs' 70 op
                ltac:(intros ? ? ? ? ?; reflexivity)
                ltac:(intros ? ?; reflexivity)
                eq_refl eq_refl Hrun ltac:(discriminate) Hop) as Hstep.
  destruct (pass2_body (Env := plain_env) [12; 148; 52; 18] 0 w)
    as [[Pos' w']| |] eqn:Hbody;
    [|vm_compute in Hbody; discriminate Hbody..].
  destruct Hstep as [-> _]. exists w'. do 2 f_equal.
  vm_compute in Hop. injection Hop as <-. reflexivity.
Defined.

Section Silence.

Context `{Env : Environment}.

Lemma resolve_stdout Bitstream Pos (w w' : world Ext) i :
  resolve Bitstream Pos w = Done (i, w') → stdout w' = stdout w.
Proof.
  unfold resolve, bind, defined, get, modify, ret.
  destruct (ptr_add Bitstream Pos) as [p|]; [|discriminate].
  destruct (Get_Next_Opcode (dis_op w) p (dis_regs w)) as [r|]; [|discriminate].
  by intros [= _ <-].
Qed.

Lemma invoke_Callback_stdout Bitstream Pos Opcode (w w' : world Ext) :
  (∀ cb p Pos m w, stdout (run_Callback cb p Pos m w) = stdout w) →
  invoke_Callback Bitstream Pos Opcode w = Done (tt, w') →
  stdout w' = stdout w.
Proof.
  intros Hcb. unfold invoke_Callback, bind, defined, get, modify.
  destruct (at_index (dis_op w) Opcode) as [op|]; [|discriminate].
  destruct (ptr_add Bitstream Pos) as [p|]; [|discriminate].
  intros [= <-]. apply Hcb.
Qed.

Lemma opcode_bytes_state Opcode (w w' : world Ext) n :
  opcode_bytes Opcode w = Done (n, w') → w' = w.
Proof.
  unfold opcode_bytes, bind, defined, get, ret.
  destruct (at_index (dis_op w) Opcode) as [op|]; [|discriminate].
  by intros [= _ <-].
Qed.

Lemma pass1_body_stdout Bitstream Pos (w w' : world Ext) Pos' :
  (∀ cb p Pos m w, stdout (run_Callback cb p Pos m w) = stdout w) →
  pass1_body Bitstream Pos w = Done (Pos', w') →
  stdout w' = stdout w.
Proof.
  intros Hcb. unfold pass1_body. unfold bind at 1.
  destruct (resolve Bitstream Pos w) as [[Opcode w1]| |] eqn:Hres;
    [|discriminate..].
  apply resolve_stdout in Hres.
  destruct (Opcode =? -1); [by intros [= _ <-]|].
  unfold bind at 1.
  destruct (invoke_Callback Bitstream Pos Opcode w1) as [[[] w2]| |] eqn:Hinv;
    [|discriminate..].
  apply (invoke_Callback_stdout _ _ _ _ _ Hcb) in Hinv.
  unfold bind at 1.
  destruct (opcode_bytes Opcode w2) as [[n w3]| |] eqn:Hn; [|discriminate..].
  apply opcode_bytes_state in Hn. subst w3.
  intros [= _ <-]. congruence.
Qed.

End Silence.

(** The first loop is silent: the driver prints nothing in it.  If the
    callbacks do not write to [stdout] themselves, [stdout] is at the end of
    the loop what it was at the start. *)
Theorem pass1_prints_nothing `{Env : Environment} (fuel : nat)
    (Bitstream : list Z) (Read Pos : Z) (w w' : world Ext) :
  (∀ cb p Pos m w, stdout (run_Callback cb p Pos m w) = stdout w) →
  pass1_loop fuel Bitstream Read Pos w = Done (tt, w') →
  stdout w' = stdout w.
Proof.
  intros Hcb. revert Pos w.
  induction fuel as [|fuel IH]; intros Pos w; cbn [pass1_loop];
    destruct (Pos <? Read); try discriminate;
    try (by intros [= <-]).
  unfold bind at 1.
  destruct (pass1_body Bitstream Pos w) as [[Pos1 w1]| |] eqn:Hbody;
    [|discriminate..].
  intros Hrun. rewrite (IH _ _ Hrun).
  by eapply pass1_body_stdout.
Qed.

Lemma pass1_prints_nothing_witness :
  ∃ w',
    pass1_loop (Env := plain_env) 3 [0; 0; 209; 28; 255; 255] 6 0
      (set_dis_op (Env := plain_env)
         (insertion_sort Comparison (register_all [])) initial_world)
    = Done (tt, w')
    ∧ stdout w' = [] ∧ dis_code w' = "adc_Callback".
Proof.
  destruct (pass1_loop (Env := plain_env) 3 [0; 0; 209; 28; 255; 255] 6 0
              (set_dis_op (Env := plain_env)
                 (insertion_sort Comparison (register_all [])) initial_world))
    as [[[] w']| |] eqn:Hrun; [|vm_compute in Hrun; discriminate Hrun..].
  exists w'. split; [reflexivity|]. split.
  - apply (pass1_prints_nothing (Env := plain_env) _ _ _ _ _ _
             ltac:(intros; reflexivity) Hrun).
  - vm_compute in Hrun. by injection Hrun as <-.
Defined.

(** *** The column of raw bytes *)

Lemma byte_hex_length b :
  String.length (pad_left "0" 2 (fmt_x (to_uchar b))) = 2%nat.
Proof.
  assert (Forall (λ k, String.length (pad_left "0" 2 (fmt_x k)) = 2%nat)
                 (seqZ 0 256)) as Hall.
  { apply (bool_decide_unpack _). vm_compute. exact I. }
  rewrite Forall_forall in Hall. apply Hall. apply elem_of_seqZ.
  unfold to_uchar. pose proof (Z.mod_pos_bound b 256). lia.
Qed.

Lemma string_length_append s1 s2 :
  String.length (s1 +:+ s2) = (String.length s1 + String.length s2)%nat.
Proof. induction s1 as [|c s1 IH]; simpl; [reflexivity|]. by rewrite IH. Qed.

Lemma characters_app (l1 l2 : list string) :
  characters (l1 ++ l2)%list = (characters l1 + characters l2)%nat.
Proof. induction l1 as [|s l1 IH]; simpl; [reflexivity|]. rewrite IH. lia. Qed.

Section RawBytes.

Context `{Env : Environment}.

Lemma print_opcode_bytes_written Bitstream Pos todo : ∀ i (w w' : world Ext),
  print_opcode_bytes todo i Bitstream Pos w = Done (tt, w') →
  ∃ chunks, stdout w' = (stdout w ++ chunks)%list
            ∧ characters chunks = (3 * todo)%nat.
Proof.
  induction todo as [|todo IH]; intros i w w'; simpl.
  - intros [= <-]. exists []. by rewrite app_nil_r.
  - unfold bind at 1, defined.
    destruct (read_byte Bitstream (Pos + i)) as [b|]; [|discriminate].
    unfold bind at 1, printf, modify. intros Hrun.
    apply IH in Hrun as (chunks & -> & Hlen). simpl.
    exists ((pad_left "0" 2 (fmt_x (to_uchar b)) +:+ " ") :: chunks).
    split; [by rewrite <- app_assoc|].
    simpl. rewrite string_length_append, byte_hex_length, Hlen. simpl. lia.
Qed.

Lemma print_missing_spaces_written todo : ∀ (w w' : world Ext),
  print_missing_spaces todo w = Done (tt, w') →
  ∃ chunks, stdout w' = (stdout w ++ chunks)%list
            ∧ characters chunks = (3 * todo)%nat.
Proof.
  induction todo as [|todo IH]; intros w w'; simpl.
  - intros [= <-]. exists []. by rewrite app_nil_r.
  - unfold bind at 1, printf, modify. intros Hrun.
    apply IH in Hrun as (chunks & -> & Hlen). simpl.
    exists ("   " :: chunks). split; [by rewrite <- app_assoc|].
    simpl. rewrite Hlen. lia.
Qed.

(** The raw bytes of an instruction fill a column of fixed width: the three
    statements that print them write 16 characters for an instruction of up
    to 5 bytes, whatever the bytes are.  A longer instruction gets no
    padding and takes 3 characters a byte and one more. *)
Theorem raw_bytes_column_width (n : Z) (Bitstream : list Z) (Pos : Z)
    (w w' : world Ext) :
  0 ≤ n →
  bind (print_opcode_bytes (Z.to_nat n) 0 Bitstream Pos)
    (λ _, bind (printf " ")
            (λ _, print_missing_spaces (Z.to_nat (5 - n)))) w
  = Done (tt, w') →
  ∃ chunks,
    stdout w' = (stdout w ++ chunks)%list
    ∧ Z.of_nat (characters chunks) = Z.max 16 (3 * n + 1).
Proof.
  intros Hn. unfold bind at 1.
  destruct (print_opcode_bytes (Z.to_nat n) 0 Bitstream Pos w)
    as [[[] w1]| |] eqn:H1; [|discriminate..].
  apply print_opcode_bytes_written in H1 as (c1 & Hw1 & Hc1).
  unfold bind at 1, printf, modify. intros H2.
  apply print_missing_spaces_written in H2 as (c2 & Hw2 & Hc2).
  simpl in Hw2. rewrite Hw1 in Hw2.
  exists (c1 ++ [" "] ++ c2)%list. split.
  - rewrite Hw2. by rewrite <- !app_assoc.
  - rewrite !characters_app, Hc1, Hc2. simpl. lia.
Qed.

End RawBytes.

Lemma raw_bytes_column_width_witness :
  ∃ w',
    bind (Env := plain_env)
      (print_opcode_bytes (Env := plain_env) (Z.to_nat 2) 0 [209; 28] 0)
      (λ _, bind (Env := plain_env) (printf (Env := plain_env) " ")
              (λ _, print_missing_spaces (Env := plain_env) (Z.to_nat (5 - 2))))
      initial_world
    = Done (tt, w')
    ∧ stdout w' = ["d1 "; "1c "; " "; "   "; "   "; "   "]
    ∧ characters (stdout w') = 16%nat.
Proof.
  eexists. split; [vm_compute; reflexivity|].
  split; [reflexivity|].
  destruct (raw_bytes_column_width (Env := plain_env) 2 [209; 28] 0
              initial_world _ ltac:(lia) eq_refl) as (chunks & Hout & Hlen).
  reflexivity.
Defined.

(** ** [Display_Binary] *)

Lemma land_bit_test b j :
  0 ≤ j → negb (Z.land b (Z.shiftl 1 j) =? 0) = Z.testbit b j.
Proof.
  intros Hj. rewrite Z.shiftl_1_l.
  destruct (Z.testbit b j) eqn:Hb.
  - destruct (Z.eqb_spec (Z.land b (2 ^ j)) 0) as [H0|]; [|reflexivity].
    assert (Z.testbit (Z.land b (2 ^ j)) j = true) as Ht.
    { rewrite Z.land_spec, Hb, Z.pow2_bits_true by lia. reflexivity. }
    rewrite H0, Z.bits_0 in Ht. discriminate.
  - assert (Z.land b (2 ^ j) = 0) as ->; [|reflexivity].
    apply Z.bits_inj'. intros k Hk.
    rewrite Z.land_spec, Z.bits_0, Z.pow2_bits_eqb by lia.
    destruct (Z.eqb_spec j k) as [->|]; [by rewrite Hb|apply andb_false_r].
Qed.

Lemma digit_chunk (x : bool) : read_digits (if x then "1" else "0") = [x].
Proof. by destruct x. Qed.

Lemma Display_Binary_bits_digits b :
  mjoin (read_digits <$> Display_Binary_bits 8 b) = byte_digits b
  ∧ characters (Display_Binary_bits 8 b) = 9%nat.
Proof.
  cbn [Display_Binary_bits]. rewrite !land_bit_test by lia.
  unfold byte_digits. cbn [fmap list_fmap].
  change (Z.of_nat 7) with 7. change (Z.of_nat 6) with 6.
  change (Z.of_nat 5) with 5. change (Z.of_nat 4) with 4.
  change (Z.of_nat 3) with 3. change (Z.of_nat 2) with 2.
  change (Z.of_nat 1) with 1. change (Z.of_nat 0) with 0.
  generalize (Z.testbit b 7), (Z.testbit b 6), (Z.testbit b 5),
    (Z.testbit b 4), (Z.testbit b 3), (Z.testbit b 2), (Z.testbit b 1),
    (Z.testbit b 0).
  intros [] [] [] [] [] [] [] []; split; reflexivity.
Qed.

Lemma byte_digits_assemble b : assemble (byte_digits b) = to_uchar b.
Proof.
  assert (byte_digits b = byte_digits (b mod 256)) as ->.
  { unfold byte_digits. change 256 with (2 ^ 8).
    cbn [fmap list_fmap]. by rewrite !(Z.mod_pow2_bits_low b 8) by lia. }
  assert (Forall (λ k, assemble (byte_digits k) = k) (seqZ 0 256)) as Hall.
  { apply (bool_decide_unpack _). vm_compute. exact I. }
  rewrite Forall_forall in Hall. unfold to_uchar. apply Hall.
  apply elem_of_seqZ. pose proof (Z.mod_pos_bound b 256). lia.
Qed.

Lemma Display_Binary_loop_digits Bitstream todo : ∀ i,
  0 ≤ i →
  match Display_Binary_loop todo i Bitstream with
  | Some chunks =>
      (todo = 0 ∨ Z.to_nat i + todo ≤ length Bitstream)%nat
      ∧ mjoin (read_digits <$> chunks)
        = mjoin (byte_digits <$> take todo (drop (Z.to_nat i) Bitstream))
      ∧ Z.of_nat (characters chunks)
        = 11 * Z.of_nat todo + 2 * ((i + Z.of_nat todo) / 2 - i / 2)
  | None => (0 < todo ∧ length Bitstream < Z.to_nat i + todo)%nat
  end.
Proof.
  induction todo as [|todo IH]; intros i Hi; cbn [Display_Binary_loop].
  - split; [by left|]. split; [by rewrite take_0|].
    simpl. rewrite Z.add_0_r. lia.
  - unfold read_byte. destruct (Z.ltb_spec i 0); [lia|].
    destruct (Bitstream !! Z.to_nat i) as [b|] eqn:Hb.
    + apply lookup_lt_Some in Hb as Hlt. specialize (IH (i + 1) ltac:(lia)).
      replace (Z.to_nat (i + 1)) with (S (Z.to_nat i)) in IH by lia.
      destruct (Display_Binary_loop todo (i + 1) Bitstream) as [rest|].
      * destruct IH as (Hlen & Hdig & Hch). split; [right; lia|]. split.
        -- rewrite !fmap_app, !join_app, Hdig.
           rewrite (proj1 (Display_Binary_bits_digits b)), (drop_S _ b _ Hb).
           destruct ((Z.rem (i + 1) 2 =? 0) && negb (i =? 0)); reflexivity.
        -- rewrite !characters_app, (proj2 (Display_Binary_bits_digits b)).
           rewrite !Nat2Z.inj_add, Hch.
           replace (i + Z.of_nat (S todo)) with (i + 1 + Z.of_nat todo) by lia.
           rewrite Z.rem_mod_nonneg by lia.
           pose proof (Z.div_mod i 2 ltac:(lia)).
           pose proof (Z.mod_pos_bound i 2 ltac:(lia)).
           pose proof (Z.div_mod (i + 1) 2 ltac:(lia)).
           pose proof (Z.mod_pos_bound (i + 1) 2 ltac:(lia)).
           destruct (Z.eqb_spec ((i + 1) mod 2) 0);
             destruct (Z.eqb_spec i 0); simpl; lia.
      * lia.
    + apply lookup_ge_None in Hb. lia.
Qed.

(** [Display_Binary] can be read back.  For a count within the buffer it
    prints, and the binary digits of its output, the spaces and the newline
    left out, are the 8 bits of each of the first [Count] bytes in turn, most
    significant first, which give back the byte as an unsigned char.  It
    writes 11 characters for each byte, 2 more after each pair of bytes and
    the newline.  For a count beyond the buffer it reads outside it. *)
Theorem Display_Binary_reads_back (Bitstream : list Z) (Count : Z) :
  (0 ≤ Count ≤ Z.of_nat (length Bitstream) →
   ∃ chunks,
     Display_Binary Bitstream Count = Some chunks
     ∧ mjoin (read_digits <$> chunks)
       = mjoin (byte_digits <$> take (Z.to_nat Count) Bitstream)
     ∧ Z.of_nat (characters chunks) = 11 * Count + 2 * (Count / 2) + 1)
  ∧ (Z.of_nat (length Bitstream) < Count →
     Display_Binary Bitstream Count = None)
  ∧ (∀ b, assemble (byte_digits b) = to_uchar b).
Proof.
  pose proof (Display_Binary_loop_digits Bitstream (Z.to_nat Count) 0 ltac:(lia))
    as Hloop.
  unfold Display_Binary. split; [|split].
  - intros HC.
    destruct (Display_Binary_loop (Z.to_nat Count) 0 Bitstream) as [chunks|];
      [|lia].
    destruct Hloop as (_ & Hdig & Hch). eexists. split; [reflexivity|]. split.
    + rewrite fmap_app, join_app, Hdig. simpl. by rewrite app_nil_r.
    + rewrite characters_app, Nat2Z.inj_add, Hch, Z2Nat.id by lia.
      rewrite Z.add_0_l. change (0 / 2) with 0.
      change (characters [nl]) with 1%nat. lia.
  - intros HC.
    destruct (Display_Binary_loop (Z.to_nat Count) 0 Bitstream) as [chunks|];
      [|reflexivity].
    destruct Hloop as ([?|?] & _); lia.
  - apply byte_digits_assemble.
Qed.

(** ** [Compare_Opcode] and [Match_Opcode] *)

Lemma scan_result_regs ps : ∀ regs regs2, (scan ps regs).1 = (scan ps regs2).1.
Proof.
  induction ps as [|[c b] ps IH]; intros regs regs2; simpl; [reflexivity|].
  repeat match goal with
         | |- context [if ?x then _ else _] => destruct x
         end; simpl; auto.
Qed.

Lemma Compare_Opcode_loop_scan Bitstream regs Bitmask : ∀ i,
  0 ≤ i →
  Forall compare_valid (list_ascii_of_string Bitmask) →
  (∀ k, i ≤ k < i + Z.of_nat (String.length Bitmask) →
        read_byte Bitstream (k ÷ 8) ≠ None) →
  Compare_Opcode_loop Bitmask i Bitstream
  = Some ((scan (plain_pairs (list_ascii_of_string Bitmask) i Bitstream) regs).1,
          []).
Proof.
  induction Bitmask as [|c rest IH]; intros i Hi Hvalid Hrd; [reflexivity|].
  cbn [list_ascii_of_string] in Hvalid. apply Forall_cons in Hvalid as [Hc Hvalid].
  cbn [Compare_Opcode_loop list_ascii_of_string plain_pairs scan String.length] in *.
  destruct (negb (c =? "x")%char && negb (c =? "1")%char && negb (c =? "0")%char)
    eqn:Htest.
  { apply compare_valid_test in Htest. by destruct Htest. }
  specialize (IH (i + 1) ltac:(lia) Hvalid ltac:(intros; apply Hrd; lia)).
  unfold plain_bit.
  destruct (Ascii.eqb_spec c "x") as [->|Hx].
  { simpl. rewrite IH. do 2 f_equal. apply scan_result_regs. }
  destruct (read_byte Bitstream (i ÷ 8)) as [b|] eqn:Hb;
    [|by destruct (Hrd i ltac:(lia))].
  assert (0 ≤ 7 - Z.rem i 8) as Hsh.
  { rewrite Z.rem_mod_nonneg by lia. pose proof (Z.mod_pos_bound i 8). lia. }
  rewrite (land_shiftr_1 b _ Hsh).
  unfold compare_valid in Hc. rewrite !elem_of_cons, elem_of_nil in Hc.
  destruct Hc as [->|[->|[->|[]]]]; [done| |];
    destruct (Z.testbit b (7 - Z.rem i 8)); simpl; try reflexivity; exact IH.
Qed.

Lemma swap_bytes_length Bitstream : length (swap_bytes Bitstream) = length Bitstream.
Proof.
  revert Bitstream.
  enough (∀ n (l : list Z), (length l ≤ n)%nat →
            length (swap_bytes l) = length l) as H by (intros l; by eapply H).
  induction n as [|n IH]; intros [|b0 [|b1 rest]] Hn; simpl in *;
    try reflexivity; try lia.
  rewrite IH by lia. reflexivity.
Qed.

Lemma swap_bytes_lookup : ∀ (m : nat) (l : list Z),
  (2 * m + 1 < length l)%nat →
  swap_bytes l !! (2 * m)%nat = l !! (2 * m + 1)%nat
  ∧ swap_bytes l !! (2 * m + 1)%nat = l !! (2 * m)%nat.
Proof.
  induction m as [|m IH]; intros [|b0 [|b1 rest]] Hlen; simpl in Hlen; try lia.
  - split; reflexivity.
  - replace (2 * S m)%nat with (S (S (2 * m))) by lia.
    replace (S (S (2 * m)) + 1)%nat with (S (S (2 * m + 1))) by lia.
    cbn [swap_bytes lookup list_lookup]. apply IH. lia.
Qed.

Lemma swap_bytes_read (Bitstream : list Z) (k : Z) :
  0 ≤ k → k < Z.of_nat (length Bitstream) →
  Z.lxor k 1 < Z.of_nat (length Bitstream) →
  read_byte (swap_bytes Bitstream) (Z.lxor k 1) = read_byte Bitstream k.
Proof.
  intros Hk Hlt Hx. pose proof (lxor_1_bounds k Hk) as Hb. unfold read_byte.
  destruct (Z.ltb_spec (Z.lxor k 1) 0), (Z.ltb_spec k 0); try lia.
  rewrite lxor_1_nonneg in Hx |- * by lia.
  destruct (Z.even k) eqn:He.
  - apply Z.even_spec in He as [m ->].
    destruct (swap_bytes_lookup (Z.to_nat m) Bitstream ltac:(lia)) as [_ Hodd].
    replace (Z.to_nat (2 * m + 1)) with (2 * Z.to_nat m + 1)%nat by lia.
    replace (Z.to_nat (2 * m)) with (2 * Z.to_nat m)%nat by lia.
    exact Hodd.
  - assert (Z.odd k = true) as Ho by (rewrite <- Z.negb_even, He; reflexivity).
    apply Z.odd_spec in Ho as [m ->].
    destruct (swap_bytes_lookup (Z.to_nat m) Bitstream ltac:(lia)) as [Heven _].
    replace (Z.to_nat (2 * m + 1 - 1)) with (2 * Z.to_nat m)%nat by lia.
    replace (Z.to_nat (2 * m + 1)) with (2 * Z.to_nat m + 1)%nat by lia.
    exact Heven.
Qed.

Lemma spanned_byte_index (Length i : Z) :
  0 ≤ i < Length → 0 ≤ i / 8 < bytes_spanned Length.
Proof.
  intros Hi. unfold bytes_spanned.
  pose proof (Z.div_mod i 8). pose proof (Z.mod_pos_bound i 8).
  pose proof (Z.div_mod (Length + 15) 16).
  pose proof (Z.mod_pos_bound (Length + 15) 16). lia.
Qed.

Lemma code_bit_swap_bytes (Bitstream : list Z) (Length i : Z) :
  0 ≤ i < Length → bytes_spanned Length ≤ Z.of_nat (length Bitstream) →
  code_bit (swap_bytes Bitstream) i = plain_bit Bitstream i.
Proof.
  intros Hi Hlen. unfold code_bit, plain_bit.
  pose proof (spanned_byte_index Length i Hi).
  pose proof (lxor_1_spanned Length i Hi).
  rewrite Z.quot_div_nonneg by lia.
  rewrite swap_bytes_read by lia. reflexivity.
Qed.

Lemma significant_valid (Bitmask : string) :
  Forall compare_valid (list_ascii_of_string Bitmask) →
  significant Bitmask = list_ascii_of_string Bitmask.
Proof.
  induction Bitmask as [|c rest IH]; simpl; [reflexivity|].
  intros Hvalid. apply Forall_cons in Hvalid as [Hc Hvalid].
  rewrite IH by exact Hvalid.
  unfold compare_valid in Hc. rewrite !elem_of_cons, elem_of_nil in Hc.
  by destruct Hc as [->|[->|[->|[]]]].
Qed.

Lemma plain_pairs_pairs (Bitmask : string) (Bitstream : list Z) :
  bytes_spanned (Get_Bitmask_Length Bitmask) ≤ Z.of_nat (length Bitstream) →
  ∀ (rest pre : list ascii),
    significant Bitmask = (pre ++ rest)%list →
    plain_pairs rest (Z.of_nat (length pre)) Bitstream
    = pairs Bitmask (swap_bytes Bitstream) (Z.of_nat (length pre)) (length rest).
Proof.
  intros Hlen. induction rest as [|c rest IH]; intros pre Heq; [reflexivity|].
  unfold pairs. cbn [length]. rewrite Nat2Z.inj_succ, seqZ_cons by lia.
  rewrite Z.pred_succ, fmap_cons. cbn [plain_pairs].
  assert (Z.of_nat (length pre) < Get_Bitmask_Length Bitmask) as Hlt.
  { rewrite Get_Bitmask_Length_spec, Heq, length_app. simpl. lia. }
  f_equal.
  - f_equal.
    + rewrite code_char_spec, Nat2Z.id, Heq by lia.
      rewrite app_nth2, Nat.sub_diag by lia. reflexivity.
    + symmetry. apply (code_bit_swap_bytes _ (Get_Bitmask_Length Bitmask)); lia.
  - specialize (IH (pre ++ [c])%list). rewrite <- app_assoc in IH.
    specialize (IH Heq). rewrite length_app in IH. cbn [length] in IH.
    replace (Z.of_nat (length pre + 1)) with (Z.succ (Z.of_nat (length pre)))
      in IH by lia.
    replace (Z.of_nat (length pre) + 1) with (Z.succ (Z.of_nat (length pre)))
      by lia.
    exact IH.
Qed.

(** The older comparator and the matcher differ in the byte order only, where
    the older one accepts the pattern at all.  For a pattern of 'x', '1' and
    '0' characters and a buffer that holds the 16-bit words the pattern
    spans, [Compare_Opcode] reports nothing and returns what [Match_Opcode]
    returns on the buffer with the two bytes of every word exchanged. *)
Theorem Compare_Opcode_is_Match_Opcode_on_swapped_bytes (Bitmask : string)
    (Bitstream regs : list Z) :
  Forall compare_valid (list_ascii_of_string Bitmask) →
  bytes_spanned (Get_Bitmask_Length Bitmask) ≤ Z.of_nat (length Bitstream) →
  Compare_Opcode Bitstream Bitmask
  = (λ r, (r.1, [])) <$> Match_Opcode Bitmask (swap_bytes Bitstream) regs.
Proof.
  intros Hvalid Hlen.
  pose proof (significant_valid Bitmask Hvalid) as Hsig.
  assert (Get_Bitmask_Length Bitmask = Z.of_nat (String.length Bitmask)) as HL.
  { rewrite Get_Bitmask_Length_spec, Hsig. f_equal.
    clear. induction Bitmask; simpl; congruence. }
  rewrite Match_Opcode_scan.
  2:{ apply stream_bits_readable. rewrite swap_bytes_length. exact Hlen. }
  unfold Compare_Opcode.
  rewrite (Compare_Opcode_loop_scan Bitstream (Clear_Registers regs)); [|lia|done|].
  2:{ intros k Hk. rewrite Z.quot_div_nonneg by lia.
      pose proof (spanned_byte_index (Get_Bitmask_Length Bitmask) k ltac:(lia)).
      unfold read_byte. destruct (Z.ltb_spec (k / 8) 0); [lia|].
      intros Hnone. apply lookup_ge_None in Hnone. lia. }
  cbn [fmap option_fmap option_map]. do 3 f_equal.
  unfold all_pairs. rewrite <- Hsig.
  pose proof (plain_pairs_pairs Bitmask Bitstream Hlen (significant Bitmask) []
                eq_refl) as Hpairs.
  change (Z.of_nat (length [])) with 0 in Hpairs. rewrite Hpairs.
  rewrite Get_Bitmask_Length_spec, Nat2Z.id. reflexivity.
Qed.

Lemma Compare_Opcode_is_Match_Opcode_on_swapped_bytes_witness :
  Compare_Opcode [28; 209] "000111xxxxxxxxxx" = Some (1, [])
  ∧ Match_Opcode "000111xxxxxxxxxx" [209; 28] (replicate 256 7)
    = Some (1, <[reg_index "x" := 209]> (replicate 256 0)).
Proof.
  pose proof (Compare_Opcode_is_Match_Opcode_on_swapped_bytes
                "000111xxxxxxxxxx" [28; 209] (replicate 256 7)) as H.
  assert (Match_Opcode "000111xxxxxxxxxx" [209; 28] (replicate 256 7)
          = Some (1, <[reg_index "x" := 209]> (replicate 256 0))) as HM
    by (vm_compute; reflexivity).
  split; [|exact HM].
  rewrite H; [change (swap_bytes [28; 209]) with [209; 28]; by rewrite HM| |].
  - cbn [list_ascii_of_string].
    repeat (constructor;
            [unfold compare_valid; rewrite !elem_of_cons; auto 6|]).
    constructor.
  - vm_compute. discriminate.
Defined.
